(** * mbox-to-pdf: the conversion pipeline of [src/mbox_converter.py]

    A shallow embedding of the parser's identifier handling, the
    deduplicating merger, the date grouper, the attachment renderer, the
    continuation-header stamper and the orchestrator, with the properties the
    specification states about them.

    Conventions of the embedding:
    - a Python [str] is a list of Unicode code points ([str := list N]);
      [lit] turns a literal of the source into such a list;
    - a Python [bytes] is a [list byte];
    - a Python function that may raise returns [result A], whose [Raise]
      carries the exception class and [str(e)];
    - [list.sort(key=...)] and [sorted] are the stable insertion sort
      [sort_by], which returns what every stable sort returns;
    - a [dict] is an association list in insertion order. *)

From Stdlib Require Import String Ascii.
From Stdlib Require Import List ZArith NArith Lia Bool.
From Stdlib Require Import Strings.Byte.
From Stdlib Require Import DecimalString Sorted Permutation QArith.
Import ListNotations.

Local Open Scope Z_scope.
Local Open Scope list_scope.

(** ** Python strings and exceptions *)

Definition str := list N.

Definition lit (s : string) : str :=
  map N_of_ascii (list_ascii_of_string s).

Definition str_eqb (a b : str) : bool :=
  if list_eq_dec N.eq_dec a b then true else false.

(** [str(n)] for an [int]. *)
Definition str_of_int (n : Z) : str :=
  lit (NilZero.string_of_int (Z.to_int n)).

(** [s.rjust(w, "0")], the zero padding of the numeric [strftime] fields. *)
Definition zfill (w : nat) (s : str) : str :=
  repeat 48%N (w - length s) ++ s.


Fixpoint startswith (s prefix : str) : bool :=
  match prefix, s with
  | [], _ => true
  | p :: prefix', c :: s' => N.eqb p c && startswith s' prefix'
  | _ :: _, [] => false
  end.

Definition endswith (s suffix : str) : bool :=
  startswith (rev s) (rev suffix).

Inductive exn_class :=
  | ValueError | UnicodeDecodeError | LookupError | TypeError | RuntimeError
  | FileNotFoundError | OtherError.

Definition exn_class_eqb (a b : exn_class) : bool :=
  match a, b with
  | ValueError, ValueError | UnicodeDecodeError, UnicodeDecodeError
  | LookupError, LookupError | TypeError, TypeError | RuntimeError, RuntimeError
  | FileNotFoundError, FileNotFoundError | OtherError, OtherError => true
  | _, _ => false
  end.

(** [issubclass]: [UnicodeDecodeError] derives from [ValueError]. *)
Definition issubclass (c base : exn_class) : bool :=
  exn_class_eqb c base
  || match c, base with UnicodeDecodeError, ValueError => true | _, _ => false end.

Record exn := mkExn { exn_kind : exn_class; exn_msg : str }.

Inductive result (A : Type) :=
  | Return (a : A)
  | Raise (e : exn).
Arguments Return {A} a.
Arguments Raise {A} e.

Definition bind {A B} (r : result A) (k : A -> result B) : result B :=
  match r with
  | Return a => k a
  | Raise e => Raise e
  end.

Notation "x <- r ;; k" := (bind r (fun x => k))
  (at level 61, r at next level, right associativity).

(** [try: r except Exception as e: handler e] *)
Definition try_except {A} (r : result A) (handler : exn -> result A)
  : result A :=
  match r with
  | Return a => Return a
  | Raise e => handler e
  end.

(** [try: r except (classes) as e: handler e]; other exceptions pass. *)
Definition try_except_on {A} (classes : list exn_class) (r : result A)
  (handler : exn -> result A) : result A :=
  match r with
  | Return a => Return a
  | Raise e =>
      if existsb (issubclass (exn_kind e)) classes then handler e
      else Raise e
  end.

Definition returns {A} (r : result A) : Prop := exists a, r = Return a.
Definition raises {A} (r : result A) : Prop := exists e, r = Raise e.

(** ** datetime

    The [Email.date] field is the timezone-aware [datetime] that
    [parsedate_to_datetime] builds: the fields as written in the header and
    the offset from UTC in seconds. *)

Record datetime := mkDate {
  year : Z; month : Z; day : Z;
  hour : Z; minute : Z; second : Z;
  utcoffset : Z
}.

Definition is_leap (y : Z) : bool :=
  (y mod 4 =? 0) && (negb (y mod 100 =? 0) || (y mod 400 =? 0)).

Definition days_before_year (y : Z) : Z :=
  let y1 := y - 1 in y1 * 365 + y1 / 4 - y1 / 100 + y1 / 400.

Definition DAYS_BEFORE_MONTH : list Z :=
  [0; 31; 59; 90; 120; 151; 181; 212; 243; 273; 304; 334].

Definition days_before_month (y m : Z) : Z :=
  nth (Z.to_nat (m - 1)) DAYS_BEFORE_MONTH 0
  + (if (2 <? m) && is_leap y then 1 else 0).

(** [date.toordinal()] *)
Definition toordinal (d : datetime) : Z :=
  days_before_year (year d) + days_before_month (year d) (month d) + day d.

(** The instant two aware datetimes are compared by: seconds since
    0001-01-01T00:00:00 UTC. *)
Definition instant (d : datetime) : Z :=
  (toordinal d - 1) * 86400 + hour d * 3600 + minute d * 60 + second d
  - utcoffset d.

(** [date.weekday()], Monday is 0. *)
Definition weekday (d : datetime) : Z := (toordinal d + 6) mod 7.

Definition MONTH_NAMES : list string :=
  ["January"; "February"; "March"; "April"; "May"; "June"; "July";
   "August"; "September"; "October"; "November"; "December"]%string.

Definition DAY_NAMES : list string :=
  ["Monday"; "Tuesday"; "Wednesday"; "Thursday"; "Friday"; "Saturday";
   "Sunday"]%string.

Definition month_name (m : Z) : str :=
  lit (nth (Z.to_nat (m - 1)) MONTH_NAMES ""%string).

Definition day_name (w : Z) : str :=
  lit (nth (Z.to_nat w) DAY_NAMES ""%string).

(** One [strftime] directive, for the directives the source uses, in the C
    locale; [%Y] is the year on four digits, as the library documents it. *)
Definition directive (d : datetime) (c : N) : str :=
  if N.eqb c 89 (* Y *) then zfill 4 (str_of_int (year d))
  else if N.eqb c 109 (* m *) then zfill 2 (str_of_int (month d))
  else if N.eqb c 100 (* d *) then zfill 2 (str_of_int (day d))
  else if N.eqb c 66 (* B *) then month_name (month d)
  else if N.eqb c 65 (* A *) then day_name (weekday d)
  else if N.eqb c 97 (* a *) then firstn 3 (day_name (weekday d))
  else if N.eqb c 73 (* I *) then
    zfill 2 (str_of_int (if hour d mod 12 =? 0 then 12 else hour d mod 12))
  else if N.eqb c 77 (* M *) then zfill 2 (str_of_int (minute d))
  else if N.eqb c 112 (* p *) then lit (if hour d <? 12 then "AM" else "PM")
  else [37%N; c].

Fixpoint strftime_go (d : datetime) (fmt : str) : str :=
  match fmt with
  | [] => []
  | c :: rest =>
      if N.eqb c 37 (* % *) then
        match rest with
        | [] => [c]
        | c' :: rest' => directive d c' ++ strftime_go d rest'
        end
      else c :: strftime_go d rest
  end.

Definition strftime (d : datetime) (fmt : string) : str :=
  strftime_go d (lit fmt).

(** ** The date grouper: keys *)

Definition _get_group_key (date : datetime) (strategy : str) : str :=
  if str_eqb strategy (lit "month") then
    strftime date "%Y-%m-%B"
  else if str_eqb strategy (lit "quarter") then
    let quarter := (month date - 1) / 3 + 1 in
    str_of_int (year date) ++ lit "-Q" ++ str_of_int quarter
  else
    str_of_int (year date).

(** ** Sorting

    [list.sort(key=k)] is stable: elements with equal keys keep their order.
    The insertion sort below puts an element before the first later element
    that is not smaller, which gives exactly that result. *)

Section Sorting.
Context {A : Type} (le : A -> A -> bool).

Fixpoint insert_by (x : A) (l : list A) : list A :=
  match l with
  | [] => [x]
  | y :: l' => if le x y then x :: l else y :: insert_by x l'
  end.

Fixpoint sort_by (l : list A) : list A :=
  match l with
  | [] => []
  | x :: l' => insert_by x (sort_by l')
  end.
End Sorting.

(** Code-point-wise lexicographic comparison, the [<] of Python's [str]. *)
Fixpoint str_compare (a b : str) : comparison :=
  match a, b with
  | [], [] => Eq
  | [], _ :: _ => Lt
  | _ :: _, [] => Gt
  | x :: a', y :: b' =>
      match N.compare x y with
      | Eq => str_compare a' b'
      | c => c
      end
  end.

Definition str_lt (a b : str) : Prop := str_compare a b = Lt.

Definition str_leb (a b : str) : bool :=
  match str_compare a b with Gt => false | _ => true end.

(** ** Dictionaries

    A [dict] keeps its keys in insertion order; assigning to a key that is
    present replaces the value in place. *)

Section Dict.
Context {V : Type}.

Definition dict := list (str * V).

Fixpoint dict_contains (k : str) (d : dict) : bool :=
  match d with
  | [] => false
  | (k', _) :: d' => str_eqb k k' || dict_contains k d'
  end.

Fixpoint dict_get (k : str) (d : dict) : option V :=
  match d with
  | [] => None
  | (k', v) :: d' => if str_eqb k k' then Some v else dict_get k d'
  end.

(** [d[k] = v] *)
Fixpoint dict_set (k : str) (v : V) (d : dict) : dict :=
  match d with
  | [] => [(k, v)]
  | (k', v') :: d' =>
      if str_eqb k k' then (k', v) :: d' else (k', v') :: dict_set k v d'
  end.

(** [dict(items)] *)
Definition dict_of_items (items : list (str * V)) : dict :=
  fold_left (fun d kv => dict_set (fst kv) (snd kv) d) items [].
End Dict.
Arguments dict V : clear implicits.

(** ** The data model *)

Record Attachment := mkAttachment {
  filename : str;
  mime_type : str;
  size_bytes : Z;
  raw_content : list byte;
  rendered_content : option str;
  content_type : option str;
  error : option str
}.

Record Email := mkEmail {
  message_id : str;
  from_addr : str;
  to_addr : str;
  date : datetime;
  subject : str;
  body_text : str;
  body_html : option str;
  cc_addr : option str;
  bcc_addr : option str;
  in_reply_to : option str;
  references : option (list str);
  attachments : list Attachment;
  headers : list (str * str);
  x_mailer : option str
}.

(** The sort key [lambda e: e.date]: aware datetimes compare by instant. *)
Definition date_le (a b : Email) : bool :=
  instant (date a) <=? instant (date b).

Definition sort_by_date : list Email -> list Email := sort_by date_le.

Definition date_sorted (l : list Email) : Prop :=
  StronglySorted (fun a b => instant (date a) <= instant (date b)) l.

(** ** Decoding bytes

    [bytes.decode(codec, errors)] for the two codecs and the two error
    handlers the renderers use. *)

Inductive errors_mode := Strict | Replace.

Definition REPLACEMENT : N := 65533%N.

(** What the error handler does with an undecodable run: raise, or emit
    U+FFFD and go on with the rest. *)
Definition on_decode_error (mode : errors_mode) (codec : string)
  (rest : result str) : result str :=
  match mode with
  | Strict =>
      Raise (mkExn UnicodeDecodeError
               (lit "'" ++ lit codec ++ lit "' codec can't decode bytes"))
  | Replace => s <- rest ;; Return (REPLACEMENT :: s)
  end.

(** Latin-1 maps every byte to the code point of the same number; a
    charmap decoder calls the error handler on an unmapped byte only. *)
Definition latin1_table (b : byte) : option N := Some (Byte.to_N b).

Fixpoint decode_latin1 (mode : errors_mode) (bs : list byte) : result str :=
  match bs with
  | [] => Return []
  | b :: bs' =>
      match latin1_table b with
      | Some c => s <- decode_latin1 mode bs' ;; Return (c :: s)
      | None => on_decode_error mode "latin-1" (decode_latin1 mode bs')
      end
  end.

(** The state of the UTF-8 decoder inside a multi-byte sequence: the
    continuation bytes still to come, the bits read so far, and the range
    the next byte has to lie in. *)
Record utf8_pending := mkPending {
  need : nat; acc : N; next_lo : N; next_hi : N
}.

Definition in_range (lo hi n : N) : bool := (N.leb lo n && N.leb n hi)%N.

(** A first byte: an ASCII character, the start of a sequence, or
    invalid. *)
Definition utf8_first (n : N) : option (N + utf8_pending) :=
  (if n <? 128 then Some (inl n)
   else if in_range 194 223 n then Some (inr (mkPending 1 (n - 192) 128 191))
   else if n =? 224 then Some (inr (mkPending 2 0 160 191))
   else if n =? 237 then Some (inr (mkPending 2 13 128 159))
   else if in_range 225 239 n then Some (inr (mkPending 2 (n - 224) 128 191))
   else if n =? 240 then Some (inr (mkPending 3 0 144 191))
   else if in_range 241 243 n then Some (inr (mkPending 3 (n - 240) 128 191))
   else if n =? 244 then Some (inr (mkPending 3 4 128 143))
   else None)%N.

Fixpoint utf8_go (mode : errors_mode) (st : option utf8_pending)
  (bs : list byte) : result str :=
  match bs with
  | [] =>
      match st with
      | None => Return []
      | Some _ => on_decode_error mode "utf-8" (Return [])
      end
  | b :: bs' =>
      let n := Byte.to_N b in
      let fresh :=
        match utf8_first n with
        | Some (inl c) => s <- utf8_go mode None bs' ;; Return (c :: s)
        | Some (inr p) => utf8_go mode (Some p) bs'
        | None => on_decode_error mode "utf-8" (utf8_go mode None bs')
        end in
      match st with
      | None => fresh
      | Some p =>
          if in_range (next_lo p) (next_hi p) n then
            let acc' := (acc p * 64 + (n - 128))%N in
            match need p with
            | S (S k) => utf8_go mode (Some (mkPending (S k) acc' 128 191)) bs'
            | _ => s <- utf8_go mode None bs' ;; Return (acc' :: s)
            end
          else on_decode_error mode "utf-8" fresh
      end
  end.

Definition decode_utf8 (mode : errors_mode) (bs : list byte) : result str :=
  utf8_go mode None bs.

(** ** The mail parser

    A message of the mailbox library is its header list, in file order, and
    the parts [message.walk()] yields, the message itself first.  A part is
    what the parser reads of it.  The other library calls are parameters of
    the section: the mailbox reader, the date parser, the codecs of the
    declared character sets, case folding and whitespace splitting. *)

Record part := mkPart {
  part_content_type : str;             (* [get_content_type()] *)
  part_maintype : str;                 (* [get_content_maintype()] *)
  part_disposition : option str;       (* [get("Content-Disposition")] *)
  part_filename : option str;          (* [get_filename()] *)
  part_payload : option (list byte);   (* [get_payload(decode=True)] *)
  part_charset : option str            (* [get_content_charset()] *)
}.

Record message := mkMessage {
  msg_headers : list (str * str);
  msg_is_multipart : bool;
  msg_root : part;
  msg_subparts : list part
}.

(** [message.walk()] *)
Definition msg_walk (m : message) : list part :=
  msg_root m :: msg_subparts m.

(** [needle in hay], as a test *)
Fixpoint str_contains (needle hay : str) : bool :=
  startswith hay needle
  || match hay with
     | [] => false
     | _ :: hay' => str_contains needle hay'
     end.

(** The truth value of an optional string: present and not empty. *)
Definition truthy (s : option str) : bool :=
  match s with Some (_ :: _) => true | _ => false end.

Section Pipeline.

Set Default Proof Using "Type".

(** [Path(p).exists()] and [mailbox.mbox(p)]: [None] when the file does
    not exist, the messages of the file in file order otherwise. *)
Variable mbox_files : str -> option (list message).
(** [email.utils.parsedate_to_datetime] *)
Variable parsedate_to_datetime : str -> result datetime.
(** [payload.decode(charset)] for a declared character set: the text, a
    [UnicodeDecodeError], or a [LookupError] for an unknown name *)
Variable decode_charset : str -> list byte -> result str.
(** [str.lower] and [str.split] *)
Variable lower : str -> str.
Variable split_ws : str -> list str.

(** [message.get(name)]: the first header of that name, names compared
    without case. *)
Fixpoint header_find (name : str) (hs : list (str * str)) : option str :=
  match hs with
  | [] => None
  | (k, v) :: hs' =>
      if str_eqb (lower k) (lower name) then Some v else header_find name hs'
  end.

Definition msg_get (m : message) (name : string) : option str :=
  header_find (lit name) (msg_headers m).

(** [message.get(name, default)] *)
Definition msg_get_default (m : message) (name : string) (default : str)
  : str :=
  match msg_get m name with Some v => v | None => default end.

Definition is_empty (s : str) : bool :=
  match s with [] => true | _ => false end.

Definition _decode_payload (p : part) : result str :=
  match part_payload p with
  | None => Return []
  | Some payload =>
      let charset :=
        match part_charset p with
        | Some (c :: cs) => c :: cs
        | _ => lit "utf-8"
        end in
      try_except_on [UnicodeDecodeError; LookupError]
        (decode_charset charset payload)
        (fun _ =>
           try_except_on [UnicodeDecodeError] (decode_utf8 Strict payload)
             (fun _ => decode_latin1 Replace payload))
  end.

Definition _parse_attachment (p : part) : option Attachment :=
  let filename :=
    match part_filename p with
    | Some (c :: cs) => c :: cs
    | _ => lit "unnamed_attachment"
    end in
  let mime_type := part_content_type p in
  match part_payload p with
  | None => None
  | Some payload =>
      let size_bytes := Z.of_nat (length payload) in
      Some (mkAttachment filename mime_type size_bytes payload None None None)
  end.

(** The body of the loop over [message.walk()], on
    [(body_text, body_html, attachments)]. *)
Definition walk_step (st : str * option str * list Attachment) (p : part)
  : result (str * option str * list Attachment) :=
  let '(body_text, body_html, attachments) := st in
  let content_type := part_content_type p in
  let content_disposition :=
    match part_disposition p with Some d => d | None => [] end in
  if str_eqb (part_maintype p) (lit "multipart") then Return st
  else if str_contains (lit "attachment") content_disposition
          || truthy (part_filename p)
  then
    match _parse_attachment p with
    | Some attachment =>
        Return (body_text, body_html, attachments ++ [attachment])
    | None => Return st
    end
  else if str_eqb content_type (lit "text/plain") && is_empty body_text
  then text <- _decode_payload p ;; Return (text, body_html, attachments)
  else if str_eqb content_type (lit "text/html")
          && match body_html with None => true | Some _ => false end
  then html <- _decode_payload p ;; Return (body_text, Some html, attachments)
  else Return st.

Fixpoint walk_loop (parts : list part)
  (st : str * option str * list Attachment)
  : result (str * option str * list Attachment) :=
  match parts with
  | [] => Return st
  | p :: rest => st <- walk_step st p ;; walk_loop rest st
  end.

Definition _extract_body_and_attachments (m : message)
  : result (str * option str * list Attachment) :=
  if msg_is_multipart m then walk_loop (msg_walk m) ([], None, [])
  else
    let content_type := part_content_type (msg_root m) in
    if str_eqb content_type (lit "text/plain") then
      text <- _decode_payload (msg_root m) ;; Return (text, None, [])
    else if str_eqb content_type (lit "text/html") then
      html <- _decode_payload (msg_root m) ;; Return ([], Some html, [])
    else Return ([], None, []).

Definition _parse_message (m : message) : result (option Email) :=
  let message_id := msg_get_default m "Message-ID" [] in
  let from_addr := msg_get_default m "From" [] in
  let to_addr := msg_get_default m "To" [] in
  let subject := msg_get_default m "Subject" [] in
  let date_str := msg_get_default m "Date" [] in
  match parsedate_to_datetime date_str with
  | Raise e =>
      if existsb (issubclass (exn_kind e)) [ValueError; TypeError]
      then Return None
      else Raise e
  | Return date =>
      let cc_addr := msg_get m "Cc" in
      let bcc_addr := msg_get m "Bcc" in
      let in_reply_to := msg_get m "In-Reply-To" in
      let x_mailer := msg_get m "X-Mailer" in
      let references_str := msg_get m "References" in
      let references :=
        match references_str with
        | Some s => if is_empty s then None else Some (split_ws s)
        | None => None
        end in
      body <- _extract_body_and_attachments m ;;
      let '(body_text, body_html, attachments) := body in
      let headers :=
        dict_of_items
          (map (fun key =>
                  (key, match header_find key (msg_headers m) with
                        | Some v => v
                        | None => []
                        end))
               (map fst (msg_headers m))) in
      Return (Some (mkEmail message_id from_addr to_addr date subject
                      body_text body_html cc_addr bcc_addr in_reply_to
                      references attachments headers x_mailer))
  end.

Fixpoint parse_messages (ms : list message) : result (list Email) :=
  match ms with
  | [] => Return []
  | m :: ms' =>
      email <- _parse_message m ;;
      rest <- parse_messages ms' ;;
      Return (match email with Some e => e :: rest | None => rest end)
  end.

Definition parse_mbox (mbox_path : str) : result (list Email) :=
  match mbox_files mbox_path with
  | None =>
      Raise (mkExn FileNotFoundError
               (lit "mbox file not found: " ++ mbox_path))
  | Some mbox =>
      emails <- parse_messages mbox ;;
      Return (sort_by_date emails)
  end.

(** ** The deduplicator *)






(** ** The date grouper *)

Definition VALID_STRATEGIES : list str :=
  [lit "month"; lit "quarter"; lit "year"].

Definition valid_strategy (strategy : str) : bool :=
  existsb (str_eqb strategy) VALID_STRATEGIES.

Definition invalid_strategy_message (strategy : str) : str :=
  lit "Invalid grouping strategy: '" ++ strategy ++ lit "'. "
  ++ lit "Must be 'month', 'quarter', or 'year'.".

(** The body of the grouping loop. *)
Definition group_step (strategy : str) (groups : dict (list Email))
  (email : Email) : dict (list Email) :=
  let key := _get_group_key (date email) strategy in
  let groups :=
    if negb (dict_contains key groups) then dict_set key [] groups
    else groups in
  match dict_get key groups with
  | Some bucket => dict_set key (bucket ++ [email]) groups
  | None => groups
  end.

(** The order of [sorted(groups.items())]: the keys of a dictionary are
    distinct, so the comparison of two items is settled by their keys. *)
Definition item_le {V} (a b : str * V) : bool := str_leb (fst a) (fst b).

Definition group_emails_by_date (emails : list Email) (strategy : str)
  : result (dict (list Email)) :=
  if negb (valid_strategy strategy) then
    Raise (mkExn ValueError (invalid_strategy_message strategy))
  else if match emails with [] => true | _ => false end then
    Return []
  else
    let groups := fold_left (group_step strategy) emails [] in
    let groups := map (fun kv => (fst kv, sort_by_date (snd kv))) groups in
    let sorted_groups := dict_of_items (sort_by item_le groups) in
    Return sorted_groups.

(** ** The decoding steps of the renderers

    The [try] chains of [_render_csv], [_render_html] and [_render_text],
    as written. *)

Definition decode_csv (raw : list byte) : result str :=
  try_except_on [UnicodeDecodeError] (decode_utf8 Strict raw)
    (fun _ => decode_latin1 Replace raw).

Definition decode_html (raw : list byte) : result str :=
  try_except_on [UnicodeDecodeError] (decode_utf8 Strict raw)
    (fun _ =>
       try_except_on [UnicodeDecodeError] (decode_latin1 Strict raw)
         (fun _ => decode_utf8 Replace raw)).

Definition decode_text (raw : list byte) : result str :=
  try_except_on [UnicodeDecodeError] (decode_utf8 Strict raw)
    (fun _ =>
       try_except_on [UnicodeDecodeError] (decode_latin1 Strict raw)
         (fun _ => decode_utf8 Replace raw)).

(** ** Text helpers of the renderers *)

(** [<tag class="cls">] *)
Definition open_tag (tag cls : string) : str :=
  lit "<" ++ lit tag ++ lit " class=" ++ [34%N] ++ lit cls ++ [34%N]
  ++ lit ">".

(** [html.escape(s)], with [quote=True]. *)
Definition escape_char (c : N) : str :=
  (if c =? 38 then lit "&amp;"
   else if c =? 60 then lit "&lt;"
   else if c =? 62 then lit "&gt;"
   else if c =? 34 then lit "&quot;"
   else if c =? 39 then lit "&#x27;"
   else [c])%N.

Definition html_escape (s : str) : str := flat_map escape_char s.

(** [s.split("\n\n")]; [cur] is the piece being read, reversed. *)
Fixpoint split_blank_go (s cur : str) : list str :=
  match s with
  | [] => [rev cur]
  | c :: rest =>
      match rest with
      | c' :: rest' =>
          if (N.eqb c 10 && N.eqb c' 10)%bool
          then rev cur :: split_blank_go rest' []
          else split_blank_go rest (c :: cur)
      | [] => split_blank_go rest (c :: cur)
      end
  end.

Definition split_blank (s : str) : list str := split_blank_go s [].

(** [s.replace(chr(10), "<br/>")] *)
Definition newlines_to_br (s : str) : str :=
  flat_map (fun c => if N.eqb c 10 then lit "<br/>" else [c]) s.

(** ** The attachment renderer

    The library calls are the parameters of the section; each may raise,
    a failed import included. *)

(** [str.isspace] on one character *)
Variable isspace : N -> bool.
(** [f"{size:.1f}"] of the float [size], given as the rational it holds *)
Variable format_1f : Q -> str.
(** [list(csv.reader(io.StringIO(content)))] *)
Variable csv_rows : str -> result (list (list str)).
(** [bleach.clean(content, tags=..., attributes=..., strip=True)] *)
Variable bleach_clean : str -> result str.
(** [[p.text for p in Document(BytesIO(raw)).paragraphs]] *)
Variable docx_paragraphs : list byte -> result (list str).
(** [load_workbook(BytesIO(raw))]: the sheets in order, each with its
    name and the [str(value)] of its cells, empty for [None] *)
Variable xlsx_sheets : list byte -> result (list (str * list (list str))).
(** [base64.b64encode(raw).decode("ascii")] *)
Variable b64encode : list byte -> str.

(** [bool(s.strip())] *)
Definition strip_nonempty (s : str) : bool :=
  existsb (fun c => negb (isspace c)) s.

Definition Qltb (a b : Q) : bool := negb (Qle_bool b a).

(** [int(size)]: truncation towards zero *)
Definition int_of_float (q : Q) : Z := Z.quot (Qnum q) (Zpos (Qden q)).

(** [Attachment.format_size_for_display]; the loop over the three
    units is unrolled by [units]. *)
Fixpoint format_size_loop (size : Q) (units : list string) : str :=
  match units with
  | [] => format_1f size ++ lit " GB"
  | unit :: units' =>
      if Qltb size 1024 then
        if negb (String.eqb unit "B") then
          format_1f size ++ lit " " ++ lit unit
        else str_of_int (int_of_float size) ++ lit " B"
      else format_size_loop (size / 1024) units'
  end.

Definition format_size_for_display (a : Attachment) : str :=
  format_size_loop (inject_Z (size_bytes a)) ["B"; "KB"; "MB"]%string.

Definition _render_reference (a : Attachment) : str :=
  let filename := html_escape (filename a) in
  let mime_type := html_escape (mime_type a) in
  let size := format_size_for_display a in
  open_tag "div" "attachment-reference"
  ++ lit "<strong>Attachment:</strong> " ++ filename ++ lit "<br/>"
  ++ lit "<small>Type: " ++ mime_type ++ lit " | Size: " ++ size
  ++ lit "</small><br/>"
  ++ lit "<em>This attachment type cannot be rendered in the PDF.</em>"
  ++ lit "</div>".

(** The paragraphs of a text, each in [<p>], blank ones left out. *)
Definition format_paragraphs (paragraphs : list str) : str :=
  flat_map (fun para => lit "<p>" ++ newlines_to_br para ++ lit "</p>")
    (filter strip_nonempty paragraphs).

Definition _render_text (a : Attachment) : result str :=
  content <- decode_text (raw_content a) ;;
  let escaped := html_escape content in
  let paragraphs := split_blank escaped in
  let formatted := format_paragraphs paragraphs in
  Return (open_tag "div" "attachment-text" ++ formatted ++ lit "</div>").

Definition _render_html (a : Attachment) : result str :=
  content <- decode_html (raw_content a) ;;
  sanitized <- bleach_clean content ;;
  Return (open_tag "div" "attachment-html" ++ sanitized ++ lit "</div>").

Definition csv_cells (tag : string) (row : list str) : str :=
  flat_map (fun cell => lit "<" ++ lit tag ++ lit ">" ++ html_escape cell
                        ++ lit "</" ++ lit tag ++ lit ">") row.

Definition _render_csv (a : Attachment) : result str :=
  content <- decode_csv (raw_content a) ;;
  rows <- csv_rows content ;;
  match rows with
  | [] => Return (_render_reference a)
  | header :: data =>
      Return
        (open_tag "table" "attachment-csv"
         ++ lit "<thead><tr>" ++ csv_cells "th" header ++ lit "</tr></thead>"
         ++ (match data with
             | [] => []
             | _ => lit "<tbody>"
                    ++ flat_map (fun row => lit "<tr>" ++ csv_cells "td" row
                                            ++ lit "</tr>") data
                    ++ lit "</tbody>"
             end)
         ++ lit "</table>")
  end.

(** ["\n\n".join(parts)] *)
Fixpoint join_blank (parts : list str) : str :=
  match parts with
  | [] => []
  | [p] => p
  | p :: rest => p ++ [10%N; 10%N] ++ join_blank rest
  end.

Definition _render_docx (a : Attachment) : result str :=
  texts <- docx_paragraphs (raw_content a) ;;
  let text := join_blank (filter strip_nonempty texts) in
  if is_empty text then Return (_render_reference a)
  else
    let paragraphs := split_blank text in
    let formatted :=
      flat_map (fun para => lit "<p>" ++ newlines_to_br (html_escape para)
                            ++ lit "</p>")
        (filter strip_nonempty paragraphs) in
    Return (open_tag "div" "attachment-docx" ++ formatted ++ lit "</div>").

Definition xlsx_sheet_parts (sheet : str * list (list str)) : list str :=
  [lit "<h4 style=" ++ [34%N]
   ++ lit "margin-top: 1em; margin-bottom: 0.5em;" ++ [34%N] ++ lit ">"
   ++ html_escape (fst sheet) ++ lit "</h4>";
   open_tag "table" "attachment-xlsx"]
  ++ flat_map (fun row =>
                 [lit "<tr>"]
                 ++ map (fun value => lit "<td>" ++ html_escape value
                                      ++ lit "</td>") row
                 ++ [lit "</tr>"]) (snd sheet)
  ++ [lit "</table>"].

Definition _render_xlsx (a : Attachment) : result str :=
  sheets <- xlsx_sheets (raw_content a) ;;
  let html_parts := flat_map xlsx_sheet_parts sheets in
  match html_parts with
  | [] => Return (_render_reference a)
  | _ => Return (open_tag "div" "attachment-xlsx" ++ concat html_parts
                 ++ lit "</div>")
  end.

Definition _render_image (a : Attachment) : result str :=
  let b64_content := b64encode (raw_content a) in
  let filename := html_escape (filename a) in
  Return (lit "<img src=" ++ [34%N] ++ lit "data:" ++ mime_type a
          ++ lit ";base64," ++ b64_content ++ [34%N] ++ lit " "
          ++ lit "alt=" ++ [34%N] ++ filename ++ [34%N]
          ++ lit " class=" ++ [34%N] ++ lit "attachment-image" ++ [34%N]
          ++ lit " />").

Definition set_content_type (a : Attachment) (tag : string) : Attachment :=
  mkAttachment (filename a) (mime_type a) (size_bytes a) (raw_content a)
    (rendered_content a) (Some (lit tag)) (error a).

Definition set_error (a : Attachment) (msg : str) : Attachment :=
  mkAttachment (filename a) (mime_type a) (size_bytes a) (raw_content a)
    (rendered_content a) (content_type a) (Some msg).

Definition set_rendered_content (a : Attachment) (html : str) : Attachment :=
  mkAttachment (filename a) (mime_type a) (size_bytes a) (raw_content a)
    (Some html) (content_type a) (error a).

Definition DOCX_MIME : str :=
  lit "application/vnd.openxmlformats-officedocument.wordprocessingml.document".
Definition XLSX_MIME : str :=
  lit "application/vnd.openxmlformats-officedocument.spreadsheetml.sheet".

(** The body of the [try] of [render_attachment]: the rendered HTML and
    the attachment with its tag set, or the exception of the renderer. *)
Definition render_dispatch (a : Attachment) : result (str * Attachment) :=
  let mime := lower (mime_type a) in
  let fname := filename a in
  if str_eqb mime (lit "text/csv") || endswith (lower fname) (lit ".csv")
  then html_content <- _render_csv a ;;
       Return (html_content, set_content_type a "table")
  else if str_eqb mime (lit "text/html")
          || endswith (lower fname) (lit ".html")
          || endswith (lower fname) (lit ".htm")
  then html_content <- _render_html a ;;
       Return (html_content, set_content_type a "html")
  else if str_eqb mime DOCX_MIME || endswith (lower fname) (lit ".docx")
  then html_content <- _render_docx a ;;
       Return (html_content, set_content_type a "docx")
  else if str_eqb mime XLSX_MIME || endswith (lower fname) (lit ".xlsx")
  then html_content <- _render_xlsx a ;;
       Return (html_content, set_content_type a "xlsx")
  else if startswith mime (lit "text/")
  then html_content <- _render_text a ;;
       Return (html_content, set_content_type a "text")
  else if startswith mime (lit "image/")
  then html_content <- _render_image a ;;
       Return (html_content, set_content_type a "image")
  else Return (_render_reference a, set_content_type a "reference").

(** The handler of [except Exception as e]. *)
Definition render_fallback (a : Attachment) (e : exn)
  : result (str * Attachment) :=
  let a := set_error a (exn_msg e) in
  let html_content := _render_reference a in
  Return (html_content, set_content_type a "reference").

(** The rendered HTML and the attachment after the call. *)
Definition render_attachment (a : Attachment) : result (str * Attachment) :=
  r <- try_except (render_dispatch a) (render_fallback a) ;;
  Return (fst r, set_rendered_content (snd r) (fst r)).


(** ** The continuation-header stamper

    A page is a page of the input file, a canvas page with one string
    drawn on it, or the result of [base.merge_page(overlay)]. *)

Inductive page :=
  | Original (content : list byte)
  | Drawn (font : string) (font_size : Z) (gray : Q) (x y : Z) (text : str)
  | Merged (base overlay : page).

Definition LETTER : Z * Z := (612, 792).

Definition max_subject_len : nat := 60.

Definition display_subject (subject : str) : str :=
  if (max_subject_len <? length subject)%nat
  then firstn max_subject_len subject ++ lit "..."
  else subject.

Definition header_text (subject : str) (page_num total_pages : nat) : str :=
  lit "Subject: " ++ display_subject subject
  ++ lit " (continued - page " ++ str_of_int (Z.of_nat page_num)
  ++ lit " of " ++ str_of_int (Z.of_nat total_pages) ++ lit ")".

Definition create_header_overlay (subject : str) (total_pages page_num : nat)
  : page :=
  let '(page_width, page_height) := LETTER in
  Drawn "Helvetica" 8 (4 # 10) 54 (page_height - 36)
    (header_text subject page_num total_pages).

(** [enumerate(l)] *)
Definition enumerate {A} (l : list A) : list (nat * A) :=
  combine (seq 0 (length l)) l.

(** The two loops over [reader.pages]: the pages given to the writer. *)
Definition continuation_pages (reader_pages : list page) (subject : str)
  : list page :=
  let total_pages := length reader_pages in
  if (total_pages <=? 1)%nat then
    map (fun page => page) reader_pages
  else
    map (fun ip : nat * page =>
           let '(i, page) := ip in
           if (i =? 0)%nat then page
           else
             let header_page :=
               create_header_overlay subject total_pages (i + 1) in
             Merged page header_page)
        (enumerate reader_pages).

(** The number of header overlays composited onto a page. *)
Fixpoint overlay_count (p : page) : nat :=
  match p with
  | Merged base (Drawn _ _ _ _ _ _) => S (overlay_count base)
  | Merged base _ => overlay_count base
  | _ => 0%nat
  end.

(** A PDF file is its bytes; the page library reads and writes them. *)
Definition pdf_file := list byte.

(** [PdfReader(path).pages], or the exception of the library *)
Variable pdf_pages : pdf_file -> result (list page).
(** [PdfWriter.write] of the pages added to the writer, or its exception *)
Variable pdf_write : list page -> result pdf_file.

Definition add_continuation_headers (input_pdf : pdf_file) (subject : str)
  : result pdf_file :=
  reader_pages <- pdf_pages input_pdf ;;
  pdf_write (continuation_pages reader_pages subject).

Fixpoint read_all_pages (pdfs : list pdf_file) : result (list page) :=
  match pdfs with
  | [] => Return []
  | pdf :: rest =>
      pages <- pdf_pages pdf ;;
      more <- read_all_pages rest ;;
      Return (pages ++ more)
  end.

Definition merge_pdfs (pdfs : list pdf_file) : result pdf_file :=
  pages <- read_all_pages pdfs ;;
  pdf_write pages.

(** ** The email renderer *)

Definition _render_header_field (label : string) (value : str) : str :=
  open_tag "div" "header-field"
  ++ open_tag "span" "header-label" ++ lit label ++ lit ":</span> "
  ++ open_tag "span" "header-value" ++ value ++ lit "</span>"
  ++ lit "</div>".

(** A header shown only [if email.field:], present and not empty. *)
Definition optional_field (label : string) (value : option str) : str :=
  match value with
  | Some (c :: v) => _render_header_field label (html_escape (c :: v))
  | _ => []
  end.

(** [" ".join(parts)] *)
Fixpoint join_space (parts : list str) : str :=
  match parts with
  | [] => []
  | [p] => p
  | p :: rest => p ++ [32%N] ++ join_space rest
  end.

Definition _render_email_header (email : Email) : str :=
  let date_str := strftime (date email) "%A, %B %d, %Y at %I:%M %p" in
  open_tag "div" "email-header"
  ++ _render_header_field "Date" date_str
  ++ _render_header_field "From" (html_escape (from_addr email))
  ++ _render_header_field "To" (html_escape (to_addr email))
  ++ optional_field "CC" (cc_addr email)
  ++ optional_field "BCC" (bcc_addr email)
  ++ _render_header_field "Subject" (html_escape (subject email))
  ++ _render_header_field "Message-ID" (html_escape (message_id email))
  ++ optional_field "In-Reply-To" (in_reply_to email)
  ++ match references email with
     | Some (r :: rs) =>
         _render_header_field "References"
           (html_escape (join_space (r :: rs)))
     | _ => []
     end
  ++ optional_field "X-Mailer" (x_mailer email)
  ++ lit "</div>".

Definition _render_email_body (email : Email) : str :=
  open_tag "div" "email-body"
  ++ match body_html email with
     | Some (c :: h) =>
         open_tag "div" "html-body" ++ (c :: h) ++ lit "</div>"
     | _ =>
         match body_text email with
         | [] => []
         | text =>
             open_tag "div" "plaintext-body"
             ++ format_paragraphs (split_blank (html_escape text))
             ++ lit "</div>"
         end
     end
  ++ lit "</div>".

(** The items of the attachments block and the attachments as the
    renderer leaves them. *)
Fixpoint render_attachment_items (atts : list Attachment)
  : result (str * list Attachment) :=
  match atts with
  | [] => Return ([], [])
  | attachment :: rest =>
      r <- render_attachment attachment ;;
      more <- render_attachment_items rest ;;
      Return
        (open_tag "div" "attachment-item"
         ++ open_tag "div" "attachment-name"
         ++ html_escape (filename attachment) ++ lit " "
         ++ lit "<small>(" ++ format_size_for_display attachment
         ++ lit ")</small>" ++ lit "</div>"
         ++ open_tag "div" "attachment-content" ++ fst r ++ lit "</div>"
         ++ lit "</div>" ++ fst more,
         snd r :: snd more)
  end.

Definition _render_attachments_section (atts : list Attachment)
  : result (str * list Attachment) :=
  items <- render_attachment_items atts ;;
  Return (open_tag "div" "attachments-section"
          ++ open_tag "h3" "attachments-header" ++ lit "Attachments</h3>"
          ++ fst items ++ lit "</div>",
          snd items).

Definition set_attachments (email : Email) (atts : list Attachment) : Email :=
  mkEmail (message_id email) (from_addr email) (to_addr email) (date email)
    (subject email) (body_text email) (body_html email) (cc_addr email)
    (bcc_addr email) (in_reply_to email) (references email) atts
    (headers email) (x_mailer email).

(** The HTML of the email and the email with its attachments rendered. *)
Definition render_email_to_html (email : Email) : result (str * Email) :=
  section <-
    match attachments email with
    | [] => Return ([], [])
    | atts => _render_attachments_section atts
    end ;;
  Return (open_tag "div" "email-message"
          ++ _render_email_header email
          ++ _render_email_body email
          ++ fst section
          ++ lit "</div>",
          set_attachments email (snd section)).

(** ** The orchestrator *)

Record AttachmentErrorInfo := mkErrorInfo {
  email_subject : str;
  email_date : str;
  email_from : str;
  attachment_filename : str;
  info_mime_type : str;
  file_size : str;
  error_type : str;
  error_message : str
}.


(** [Path(output_dir).mkdir(parents=True, exist_ok=True)] *)
Variable mkdir : str -> result unit.
(** [generate_pdf(html, raw_pdf, image_temp_dir)]: the file written, or
    the exception of the PDF backend *)
Variable generate_pdf : str -> result pdf_file.
(** [int((i / total_groups) * 75)], a float computation *)
Variable progress_share : nat -> nat -> Z.



(** The record the orchestrator adds for one attachment, if any. *)
Definition attachment_issue (email : Email) (attachment : Attachment)
  : list AttachmentErrorInfo :=
  let info error_type error_message :=
    mkErrorInfo (subject email)
      (strftime (date email) "%a, %B %d, %Y at %I:%M %p")
      (from_addr email) (filename attachment) (mime_type attachment)
      (format_size_for_display attachment) error_type error_message in
  match error attachment with
  | Some (c :: msg) =>
      [info (lit "rendering_failed")
         (lit "Could not render attachment: " ++ (c :: msg))]
  | _ =>
      match content_type attachment with
      | Some tag =>
          if str_eqb tag (lit "reference") then
            [info (lit "unsupported_type")
               (lit "This file type cannot be rendered in the PDF.")]
          else []
      | None => []
      end
  end.

(** The body of the [try] for one email: the attachment records it has
    appended by the time it ends, and the PDF of the email or the
    exception that ended it. *)
Definition process_email (email : Email)
  : list AttachmentErrorInfo * result pdf_file :=
  match render_email_to_html email with
  | Raise e => ([], Raise e)
  | Return (email_html, email) =>
      (flat_map (attachment_issue email) (attachments email),
       raw_pdf <- generate_pdf email_html ;;
       add_continuation_headers raw_pdf (subject email))
  end.

(** The state of the loops: [errors], [attachment_errors] and
    [created_files]. *)
Record run_state := mkState {
  st_errors : list str;
  st_attachment_errors : list AttachmentErrorInfo;
  st_created_files : list str
}.

(** The inner loop over the emails of one group, on [email_pdfs] and the
    state. *)
Definition email_step (acc : list pdf_file * run_state) (email : Email)
  : list pdf_file * run_state :=
  let '(email_pdfs, st) := acc in
  let '(infos, outcome) := process_email email in
  let st := mkState (st_errors st) (st_attachment_errors st ++ infos)
              (st_created_files st) in
  match outcome with
  | Return final_pdf => (email_pdfs ++ [final_pdf], st)
  | Raise e =>
      (email_pdfs,
       mkState (st_errors st
                ++ [lit "Failed to process email '" ++ subject email
                    ++ lit "': " ++ exn_msg e])
         (st_attachment_errors st) (st_created_files st))
  end.




(** ** Notions used by the properties *)

(** The grouping loop adds the email to the bucket of its key, a new
    last bucket when the key is new. *)
Fixpoint bucket_append (k : str) (e : Email) (g : dict (list Email))
  : dict (list Email) :=
  match g with
  | [] => [(k, [e])]
  | (k', b) :: g' =>
      if str_eqb k k' then (k', b ++ [e]) :: g'
      else (k', b) :: bucket_append k e g'
  end.

(** Every email of a bucket has the key of the bucket. *)
Definition keyed (strategy : str) (g : dict (list Email)) : Prop :=
  Forall (fun kv => Forall (fun e => _get_group_key (date e) strategy = fst kv)
                      (snd kv)) g.


(** The fallback in the words of the specification: UTF-8 first, then
    Latin-1 with replacement of undecodable bytes. *)
Definition two_step_decode (raw : list byte) : result str :=
  match decode_utf8 Strict raw with
  | Return s => Return s
  | Raise _ => decode_latin1 Replace raw
  end.



(** ** Notions used by the further properties *)

(** The character set [_decode_payload] decodes a part with. *)
Definition declared_charset (p : part) : str :=
  match part_charset p with
  | Some (c :: cs) => c :: cs
  | _ => lit "utf-8"
  end.

(** An attachment as the parser leaves it: its size is the length of its
    bytes, it has a name, and no field of the renderer is set. *)
Definition attachment_fresh (a : Attachment) : Prop :=
  size_bytes a = Z.of_nat (length (raw_content a))
  /\ filename a <> []
  /\ rendered_content a = None /\ content_type a = None /\ error a = None.

(** The test of the walk for an attachment part. *)
Definition attachment_like (p : part) : bool :=
  str_contains (lit "attachment")
    (match part_disposition p with Some d => d | None => [] end)
  || truthy (part_filename p).

(** A part the walk may take a body from: no container, no attachment,
    and of the given content type. *)
Definition body_candidate (content_type : string) (p : part) : bool :=
  negb (str_eqb (part_maintype p) (lit "multipart"))
  && negb (attachment_like p)
  && str_eqb (part_content_type p) (lit content_type).







(** ** Error handling ([src/error_handling.py])

    The exception classes [classify_attachment_error] tells apart, with
    [ErrOther] for every other class, and an exception as its class and
    its [str]. *)

Inductive error_class :=
  | ErrUnicodeDecode | ErrImport | ErrFileNotFound | ErrOS | ErrValue
  | ErrType | ErrMemory | ErrOther.

Definition error_class_eqb (a b : error_class) : bool :=
  match a, b with
  | ErrUnicodeDecode, ErrUnicodeDecode | ErrImport, ErrImport
  | ErrFileNotFound, ErrFileNotFound | ErrOS, ErrOS | ErrValue, ErrValue
  | ErrType, ErrType | ErrMemory, ErrMemory | ErrOther, ErrOther => true
  | _, _ => false
  end.

(** [isinstance(e, base)]: [UnicodeDecodeError] derives from [ValueError],
    [FileNotFoundError] from [OSError], of which [IOError] is a name. *)
Definition error_isinstance (c base : error_class) : bool :=
  error_class_eqb c base
  || match c, base with
     | ErrUnicodeDecode, ErrValue | ErrFileNotFound, ErrOS => true
     | _, _ => false
     end.

Record error_value := mkError { err_class : error_class; err_str : str }.

Definition ERROR_MESSAGES : dict str :=
  [(lit "corrupted",
    lit "The file could not be read. It may be corrupted or incomplete.");
   (lit "unsupported",
    lit "This file type is not supported for rendering.");
   (lit "too_large",
    lit "The file exceeds the maximum size limit (100MB).");
   (lit "encoding_error",
    lit "The file encoding could not be determined.");
   (lit "missing_library",
    lit "A required library for processing this file type is not installed.");
   (lit "unsupported_variant",
    lit "This variant of the file format is not supported.");
   (lit "password_protected",
    lit "This file is password-protected and cannot be opened.");
   (lit "empty_file",
    lit "The file is empty and contains no data.");
   (lit "unknown",
    lit "The file could not be processed due to an unexpected error.")].

(** [ERROR_MESSAGES.get(error_type, default)] *)
Definition error_message_for (error_type default : str) : str :=
  match dict_get error_type ERROR_MESSAGES with
  | Some m => m
  | None => default
  end.

Fixpoint format_file_size_loop (size : Q) (units : list string) : str :=
  match units with
  | [] => format_1f size ++ lit " GB"
  | unit :: units' =>
      if Qltb size 1024 then
        if String.eqb unit "B"
        then str_of_int (int_of_float size) ++ lit " B"
        else format_1f size ++ lit " " ++ lit unit
      else format_file_size_loop (size / 1024) units'
  end.

Definition format_file_size (size_bytes : Z) : str :=
  if size_bytes <? 0 then lit "0 B"
  else format_file_size_loop (inject_Z size_bytes) ["B"; "KB"; "MB"]%string.

Definition UNSUPPORTED_MIME_PREFIXES : list str :=
  [lit "audio/"; lit "video/"].

Definition UNSUPPORTED_MIME_TYPES : list str :=
  [lit "application/x-zip-compressed"; lit "application/zip";
   lit "application/x-rar-compressed"; lit "application/x-7z-compressed";
   lit "application/x-tar"; lit "application/gzip";
   lit "application/x-executable"; lit "application/x-msdownload";
   lit "application/x-shockwave-flash"; lit "application/java-archive"].

Definition UNSUPPORTED_EXTENSIONS : list str :=
  [lit ".exe"; lit ".dll"; lit ".so"; lit ".dylib";
   lit ".zip"; lit ".rar"; lit ".7z"; lit ".tar"; lit ".gz"; lit ".bz2";
   lit ".mp3"; lit ".wav"; lit ".flac"; lit ".aac"; lit ".ogg"; lit ".wma";
   lit ".mp4"; lit ".avi"; lit ".mov"; lit ".mkv"; lit ".wmv"; lit ".flv";
   lit ".swf"; lit ".jar"].

(** The three tests return [True] on the first hit, so the order in which
    a set is gone through does not show. *)
Definition is_unsupported_file_type (mime_type filename : str) : bool :=
  let mime_type := lower mime_type in
  if existsb (startswith mime_type) UNSUPPORTED_MIME_PREFIXES then true
  else if existsb (str_eqb mime_type) UNSUPPORTED_MIME_TYPES then true
  else
    let filename_lower := lower filename in
    if existsb (endswith filename_lower) UNSUPPORTED_EXTENSIONS then true
    else false.

(** [word in exception_msg] *)
Definition has_word (exception_msg : str) (word : string) : bool :=
  str_contains (lit word) exception_msg.

Definition classify_attachment_error (original_exception : error_value)
  (attachment_filename mime_type : str) : str :=
  let msg := lower (err_str original_exception) in
  let isinstance base :=
    error_isinstance (err_class original_exception) base in
  if isinstance ErrUnicodeDecode then lit "encoding_error"
  else if isinstance ErrImport then lit "missing_library"
  else if isinstance ErrFileNotFound || isinstance ErrOS then
    if has_word msg "permission" then lit "corrupted" else lit "corrupted"
  else if isinstance ErrValue || isinstance ErrType then
    if has_word msg "password" || has_word msg "encrypted"
    then lit "password_protected"
    else if has_word msg "empty" || has_word msg "no data"
    then lit "empty_file"
    else if has_word msg "not supported" || has_word msg "unsupported"
    then lit "unsupported_variant"
    else lit "corrupted"
  else if isinstance ErrMemory then lit "too_large"
  else if has_word msg "password" || has_word msg "encrypted"
  then lit "password_protected"
  else if has_word msg "corrupt" || has_word msg "invalid"
  then lit "corrupted"
  else if has_word msg "not supported" || has_word msg "unsupported"
  then lit "unsupported_variant"
  else if is_unsupported_file_type mime_type attachment_filename
  then lit "unsupported"
  else lit "unknown".



(** [AttachmentError]: the fields of the exception and its message. *)
Record AttachmentError := mkAttachmentError {
  ae_email : Email;
  ae_attachment_filename : str;
  ae_mime_type : str;
  ae_file_size : Z;
  ae_error_type : str;
  ae_message : str
}.

(** [AttachmentError.__init__] *)
Definition new_AttachmentError (email : Email)
  (attachment_filename mime_type : str) (file_size : Z) (error_type : str)
  : AttachmentError :=
  mkAttachmentError email attachment_filename mime_type file_size error_type
    (lit "Failed to process attachment '" ++ attachment_filename
     ++ lit "': " ++ error_message_for error_type (lit "Unknown error")).

(** [AttachmentError.to_error_info] *)
Definition to_error_info (err : AttachmentError) : AttachmentErrorInfo :=
  mkErrorInfo (subject (ae_email err))
    (strftime (date (ae_email err)) "%a, %B %d, %Y at %I:%M %p")
    (from_addr (ae_email err))
    (ae_attachment_filename err) (ae_mime_type err)
    (format_file_size (ae_file_size err))
    (ae_error_type err)
    (error_message_for (ae_error_type err)
       (lit "The file could not be processed.")).







(** The two categories the orchestrator gives its attachment records. *)
Definition orchestrator_category (info : AttachmentErrorInfo) : Prop :=
  error_type info = lit "rendering_failed"
  \/ error_type info = lit "unsupported_type".


(** * Properties *)

(** ** Strings *)

Lemma str_eqb_eq (a b : str) : str_eqb a b = true <-> a = b.
Proof.
  unfold str_eqb. destruct (list_eq_dec N.eq_dec a b); split; congruence.
Qed.

Lemma str_eqb_refl (a : str) : str_eqb a a = true.
Proof. now apply str_eqb_eq. Qed.

Lemma str_eqb_neq (a b : str) : str_eqb a b = false <-> a <> b.
Proof.
  unfold str_eqb. destruct (list_eq_dec N.eq_dec a b); split; congruence.
Qed.



Lemma str_lt_trans (a b c : str) : str_lt a b -> str_lt b c -> str_lt a c.
Proof.
  unfold str_lt. revert b c.
  induction a as [|x a IH]; intros [|y b] [|z c]; simpl; try congruence.
  destruct (N.compare_spec x y) as [->|Hxy|Hxy]; try discriminate.
  - destruct (N.compare z y) eqn:E; destruct (N.compare y z) eqn:E';
      try discriminate; eauto.
  - destruct (N.compare_spec y z) as [->|Hyz|Hyz]; try discriminate.
    + intros _ _. now apply N.compare_lt_iff in Hxy as ->.
    + intros _ _.
      assert (H : (x < z)%N) by (eapply N.lt_trans; eauto).
      now apply N.compare_lt_iff in H as ->.
Qed.




(** ** Sorting *)

Section SortingFacts.
Context {A : Type} (le : A -> A -> bool).
Hypothesis le_total : forall a b, le a b = false -> le b a = true.
Hypothesis le_trans :
  forall a b c, le a b = true -> le b c = true -> le a c = true.

Lemma insert_by_perm (x : A) (l : list A) :
  Permutation (insert_by le x l) (x :: l).
Proof.
  induction l as [|y l IH]; simpl; auto.
  destruct (le x y); auto.
  rewrite IH. apply perm_swap.
Qed.

Lemma sort_by_perm (l : list A) : Permutation (sort_by le l) l.
Proof.
  induction l as [|x l IH]; simpl; auto.
  rewrite insert_by_perm. now constructor.
Qed.

Lemma insert_by_sorted (x : A) (l : list A) :
  StronglySorted (fun a b => le a b = true) l ->
  StronglySorted (fun a b => le a b = true) (insert_by le x l).
Proof using le_total le_trans.
  induction 1 as [|y l Hs IH Hall]; simpl.
  - repeat constructor.
  - destruct (le x y) eqn:E.
    + constructor; [now constructor|].
      constructor; auto.
      eapply Forall_impl; [|exact Hall]. intros z Hz. eapply le_trans; eauto.
    + constructor; auto.
      eapply Permutation_Forall; [symmetry; apply insert_by_perm|].
      constructor; auto.
Qed.

Lemma sort_by_sorted (l : list A) :
  StronglySorted (fun a b => le a b = true) (sort_by le l).
Proof using le_total le_trans.
  induction l as [|x l IH]; simpl; [constructor|].
  now apply insert_by_sorted.
Qed.

Lemma sort_by_In (l : list A) (x : A) : In x (sort_by le l) <-> In x l.
Proof.
  split; apply Permutation_in; [|symmetry]; apply sort_by_perm.
Qed.

End SortingFacts.

Lemma StronglySorted_weaken {A} (R R' : A -> A -> Prop) (l : list A) :
  (forall a b, R a b -> R' a b) -> StronglySorted R l -> StronglySorted R' l.
Proof.
  intros HR. induction 1 as [|x l Hs IH Hall]; constructor; auto.
  eapply Forall_impl; [|exact Hall]. auto.
Qed.

Lemma sort_by_date_perm (l : list Email) : Permutation (sort_by_date l) l.
Proof. apply sort_by_perm. Qed.

Lemma sort_by_date_sorted (l : list Email) : date_sorted (sort_by_date l).
Proof.
  unfold date_sorted, sort_by_date.
  eapply StronglySorted_weaken.
  2: { apply sort_by_sorted.
       - unfold date_le. intros a b H. apply Z.leb_gt in H.
         apply Z.leb_le. lia.
       - unfold date_le. intros a b c H1 H2.
         apply Z.leb_le in H1, H2. apply Z.leb_le. lia. }
  unfold date_le. intros a b H. now apply Z.leb_le in H.
Qed.

(** ** The date grouper *)


(** A year from 1000 to 9999 is written on four digits. *)
Lemma year_four_digits (y : Z) :
  1000 <= y <= 9999 ->
  length (str_of_int y) = 4%nat /\ zfill 4 (str_of_int y) = str_of_int y.
Proof.
  intros Hy.
  assert (H : forallb (fun n => (length (str_of_int (1000 + Z.of_nat n))
                                 =? 4)%nat) (seq 0 (Z.to_nat 9000)) = true)
    by (vm_compute; reflexivity).
  rewrite forallb_forall in H.
  specialize (H (Z.to_nat (y - 1000))).
  rewrite Z2Nat.id in H by lia.
  replace (1000 + (y - 1000)) with y in H by lia.
  assert (Hlen : length (str_of_int y) = 4%nat).
  { apply Nat.eqb_eq, H, in_seq. lia. }
  split; [exact Hlen|]. unfold zfill. now rewrite Hlen.
Qed.

(** A month is written on two digits. *)
Lemma month_two_digits (m : Z) :
  1 <= m <= 12 -> length (zfill 2 (str_of_int m)) = 2%nat.
Proof.
  intros Hm.
  assert (H : forallb (fun n => (length (zfill 2 (str_of_int
                                                   (1 + Z.of_nat n)))
                                 =? 2)%nat) (seq 0 12) = true)
    by (vm_compute; reflexivity).
  rewrite forallb_forall in H.
  specialize (H (Z.to_nat (m - 1))).
  rewrite Z2Nat.id in H by lia.
  replace (1 + (m - 1)) with m in H by lia.
  apply Nat.eqb_eq, H, in_seq. lia.
Qed.


Lemma group_step_bucket_append (strategy : str) (g : dict (list Email))
  (e : Email) :
  group_step strategy g e
  = bucket_append (_get_group_key (date e) strategy) e g.
Proof.
  unfold group_step. generalize (_get_group_key (date e) strategy) as k.
  intros k. induction g as [|[k' b] g IH]; simpl.
  - now rewrite str_eqb_refl.
  - destruct (str_eqb k k') eqn:E; simpl.
    + now rewrite E.
    + destruct (dict_contains k g) eqn:C; simpl in *; rewrite E.
      * destruct (dict_get k g); simpl; rewrite ?E; now rewrite <- IH.
      * destruct (dict_get k (dict_set k [] g)); simpl; rewrite ?E;
          now rewrite <- IH.
Qed.

Lemma bucket_append_keys (k : str) (e : Email) (g : dict (list Email)) :
  NoDup (map fst g) -> NoDup (map fst (bucket_append k e g))
  /\ forall x, In x (map fst (bucket_append k e g)) -> x = k \/ In x (map fst g).
Proof.
  induction g as [|[k' b] g IH]; simpl; intros Hnd.
  - split; [repeat constructor; auto | ].
    intros x [<-|[]]. now left.
  - inversion Hnd as [|? ? Hnotin Hnd']; subst.
    destruct (str_eqb k k') eqn:E; simpl.
    + split; [now constructor | ]. intros x Hx. now right.
    + destruct (IH Hnd') as [IH1 IH2]. split.
      * constructor; auto. intros Hin. apply IH2 in Hin as [->|Hin]; auto.
        now rewrite str_eqb_refl in E.
      * intros x [<-|Hx]; auto. apply IH2 in Hx as [Hx|Hx]; auto.
Qed.

Lemma bucket_append_perm (k : str) (e : Email) (g : dict (list Email)) :
  Permutation (concat (map snd (bucket_append k e g)))
    (concat (map snd g) ++ [e]).
Proof.
  induction g as [|[k' b] g IH]; simpl; auto.
  destruct (str_eqb k k'); simpl.
  - rewrite <- !app_assoc. apply Permutation_app_head.
    apply Permutation_app_comm.
  - rewrite IH. now rewrite app_assoc.
Qed.

Lemma bucket_append_keyed (strategy : str) (e : Email)
  (g : dict (list Email)) :
  keyed strategy g ->
  keyed strategy (bucket_append (_get_group_key (date e) strategy) e g).
Proof.
  unfold keyed. generalize (eq_refl (_get_group_key (date e) strategy)).
  generalize (_get_group_key (date e) strategy) at 1 3 as k.
  intros k Hk. induction 1 as [|[k' b] g Hb Hg IH]; simpl.
  - repeat constructor. simpl. auto.
  - destruct (str_eqb k k') eqn:E; constructor; auto. simpl in *.
    apply str_eqb_eq in E. subst k'. apply Forall_app. split; auto.
Qed.

Lemma grouping_loop (strategy : str) (emails : list Email)
  (g : dict (list Email)) :
  NoDup (map fst g) -> keyed strategy g ->
  let g' := fold_left (group_step strategy) emails g in
  NoDup (map fst g') /\ keyed strategy g'
  /\ Permutation (concat (map snd g')) (concat (map snd g) ++ emails).
Proof.
  revert g. induction emails as [|e emails IH]; simpl; intros g Hnd Hk.
  - rewrite app_nil_r. auto.
  - rewrite group_step_bucket_append.
    destruct (IH (bucket_append (_get_group_key (date e) strategy) e g))
      as (H1 & H2 & H3).
    + now apply bucket_append_keys.
    + now apply bucket_append_keyed.
    + repeat split; auto. rewrite H3, bucket_append_perm.
      now rewrite <- app_assoc.
Qed.



Lemma dict_set_fresh {V} (k : str) (v : V) (d : dict V) :
  ~ In k (map fst d) -> dict_set k v d = d ++ [(k, v)].
Proof.
  induction d as [|[k' v'] d IH]; simpl; intros H; auto.
  destruct (str_eqb k k') eqn:E.
  - apply str_eqb_eq in E. subst. exfalso. apply H. now left.
  - rewrite IH; auto.
Qed.

Lemma dict_of_items_acc {V} (items acc : dict V) :
  NoDup (map fst (acc ++ items)) ->
  fold_left (fun d kv => dict_set (fst kv) (snd kv) d) items acc
  = acc ++ items.
Proof.
  revert acc. induction items as [|[k v] items IH]; simpl; intros acc Hnd.
  - now rewrite app_nil_r.
  - rewrite dict_set_fresh.
    + rewrite IH; rewrite <- app_assoc; auto.
    + rewrite map_app in Hnd. simpl in Hnd.
      apply NoDup_remove_2 in Hnd. intros Hin. apply Hnd.
      apply in_or_app. auto.
Qed.

Lemma dict_of_items_distinct {V} (items : dict V) :
  NoDup (map fst items) -> dict_of_items items = items.
Proof. intros H. unfold dict_of_items. now rewrite dict_of_items_acc. Qed.




(** ** The deduplicator *)













Lemma parse_messages_source (ms : list message) (es : list Email) :
  parse_messages ms = Return es ->
  forall e, In e es -> exists m, In m ms /\ _parse_message m = Return (Some e).
Proof.
  revert es. induction ms as [|m ms IH]; simpl; intros es H e He.
  - injection H as <-. destruct He.
  - destruct (_parse_message m) as [o|ex] eqn:Em; simpl in H; try discriminate.
    destruct (parse_messages ms) as [rest|ex]; simpl in H; try discriminate.
    injection H as <-. destruct o as [e'|].
    + destruct He as [<-|He]; eauto.
      destruct (IH _ eq_refl e He) as (m' & Hm' & Hp). eauto.
    + destruct (IH _ eq_refl e He) as (m' & Hm' & Hp). eauto.
Qed.

Lemma parse_mbox_source (p : str) (es : list Email) :
  parse_mbox p = Return es ->
  exists ms, mbox_files p = Some ms
    /\ forall e, In e es ->
         exists m, In m ms /\ _parse_message m = Return (Some e).
Proof.
  unfold parse_mbox. destruct (mbox_files p) as [ms|]; try discriminate.
  destruct (parse_messages ms) as [raw|ex] eqn:E; simpl; try discriminate.
  intros [= <-]. exists ms. split; auto.
  intros e He. apply (parse_messages_source _ _ E).
  eapply Permutation_in; [apply sort_by_date_perm|exact He].
Qed.







(** ** Decoding *)

Lemma decode_latin1_total (mode : errors_mode) (raw : list byte) :
  decode_latin1 mode raw = Return (map Byte.to_N raw).
Proof.
  induction raw as [|b raw IH]; simpl; auto.
  now rewrite IH.
Qed.

Lemma on_decode_error_strict (codec : string) (rest : result str) (e : exn) :
  on_decode_error Strict codec rest = Raise e ->
  exn_kind e = UnicodeDecodeError.
Proof. simpl. now intros [= <-]. Qed.

Lemma bind_raise {A B} (r : result A) (k : A -> result B) (e : exn) :
  bind r k = Raise e ->
  r = Raise e \/ exists a, r = Return a /\ k a = Raise e.
Proof.
  destruct r as [a|e']; simpl; intros H.
  - right. exists a. auto.
  - left. now injection H as ->.
Qed.

Lemma utf8_go_strict_error (raw : list byte) (st : option utf8_pending)
  (e : exn) :
  utf8_go Strict st raw = Raise e -> exn_kind e = UnicodeDecodeError.
Proof.
  revert st. induction raw as [|b raw IH]; intros st; simpl.
  - destruct st; [now intros [= <-] | discriminate].
  - assert (Hfresh :
      match utf8_first (Byte.to_N b) with
      | Some (inl c) => s <- utf8_go Strict None raw ;; Return (c :: s)
      | Some (inr p) => utf8_go Strict (Some p) raw
      | None => on_decode_error Strict "utf-8" (utf8_go Strict None raw)
      end = Raise e -> exn_kind e = UnicodeDecodeError).
    { destruct (utf8_first (Byte.to_N b)) as [[c|p]|].
      - intros H. apply bind_raise in H as [H|(s & _ & H)];
          [eauto | discriminate].
      - apply IH.
      - apply on_decode_error_strict. }
    destruct st as [p|]; auto.
    destruct (in_range _ _ _).
    + destruct (need p) as [|[|k]].
      * intros H. apply bind_raise in H as [H|(s & _ & H)];
          [eauto | discriminate].
      * intros H. apply bind_raise in H as [H|(s & _ & H)];
          [eauto | discriminate].
      * apply IH.
    + now intros [= <-].
Qed.

(** C8. For every byte content the decoding steps of the CSV, HTML and
    text renderers are the same two-step fallback, UTF-8 first and then
    Latin-1 with replacement, and none of them raises: each returns the
    UTF-8 reading of the bytes when they are valid UTF-8 and their Latin-1
    reading otherwise. *)
Theorem text_decoding_never_raises (raw : list byte) :
  decode_csv raw = two_step_decode raw
  /\ decode_html raw = two_step_decode raw
  /\ decode_text raw = two_step_decode raw
  /\ exists content,
       two_step_decode raw = Return content
       /\ (decode_utf8 Strict raw = Return content
           \/ raises (decode_utf8 Strict raw)
              /\ content = map Byte.to_N raw).
Proof.
  unfold decode_csv, decode_html, decode_text, two_step_decode,
    try_except_on.
  destruct (decode_utf8 Strict raw) as [s|e] eqn:E.
  - repeat split; auto. exists s. auto.
  - unfold decode_utf8 in E. rewrite (utf8_go_strict_error _ _ _ E).
    rewrite !decode_latin1_total. simpl.
    repeat split; auto. exists (map Byte.to_N raw).
    split; auto. right. split; auto. now exists e.
Qed.

(** ** The parser returns

    Decoding a payload never raises when the codec of the declared
    character set fails with the two exceptions it is documented to raise
    only; the parser then returns for every file that exists, as the date
    parser too fails with its two documented exceptions only. *)

Section ParserReturns.
Hypothesis decode_charset_errors :
  forall charset payload e, decode_charset charset payload = Raise e ->
  exn_kind e = UnicodeDecodeError \/ exn_kind e = LookupError.
Hypothesis parsedate_errors :
  forall s e, parsedate_to_datetime s = Raise e ->
  exn_kind e = ValueError \/ exn_kind e = TypeError.

Lemma _decode_payload_returns (p : part) : returns (_decode_payload p).
Proof using decode_charset_errors.
  unfold _decode_payload, returns.
  destruct (part_payload p) as [payload|]; [|eauto].
  unfold try_except_on.
  destruct (decode_charset _ payload) as [s|e] eqn:E; [eauto|].
  assert (Hc : existsb (issubclass (exn_kind e))
                 [UnicodeDecodeError; LookupError] = true).
  { destruct (decode_charset_errors _ _ _ E) as [-> | ->]; reflexivity. }
  rewrite Hc.
  destruct (decode_utf8 Strict payload) as [s|e'] eqn:E'; [eauto|].
  unfold decode_utf8 in E'. rewrite (utf8_go_strict_error _ _ _ E'). simpl.
  rewrite decode_latin1_total. eauto.
Qed.

Lemma walk_loop_returns (parts : list part)
  (st : str * option str * list Attachment) :
  returns (walk_loop parts st).
Proof using decode_charset_errors.
  revert st. induction parts as [|p parts IH]; simpl; intros st.
  - now exists st.
  - assert (H : returns (walk_step st p)).
    { unfold walk_step. destruct st as [[bt bh] atts].
      destruct (_decode_payload_returns p) as [s Hs].
      repeat match goal with
             | |- returns (if ?c then _ else _) => destruct c
             | |- returns (match ?o with Some _ => _ | None => _ end) =>
                 destruct o
             end; rewrite ?Hs; simpl; unfold returns; eauto. }
    destruct H as [st' ->]. simpl. apply IH.
Qed.

Lemma _extract_body_and_attachments_returns (m : message) :
  returns (_extract_body_and_attachments m).
Proof using decode_charset_errors.
  unfold _extract_body_and_attachments.
  destruct (msg_is_multipart m); [apply walk_loop_returns|].
  destruct (_decode_payload_returns (msg_root m)) as [s Hs].
  repeat match goal with
         | |- returns (if ?c then _ else _) => destruct c
         end; rewrite ?Hs; simpl; unfold returns; eauto.
Qed.

Lemma parse_mbox_returns (p : str) (ms : list message) :
  mbox_files p = Some ms -> returns (parse_mbox p).
Proof using decode_charset_errors parsedate_errors.
  intros Hp. unfold parse_mbox, returns. rewrite Hp.
  assert (H : exists es, parse_messages ms = Return es).
  { clear Hp. induction ms as [|m ms [es IH]]; simpl; [eauto|].
    assert (Hm : exists o, _parse_message m = Return o).
    { unfold _parse_message.
      destruct (parsedate_to_datetime _) as [d|e] eqn:E.
      - destruct (_extract_body_and_attachments_returns m)
          as [[[bt bh] atts] ->]. simpl. eauto.
      - destruct (parsedate_errors _ _ E) as [-> | ->]; simpl; eauto. }
    destruct Hm as [o ->]. rewrite IH. simpl. eauto. }
  destruct H as [es ->]. simpl. eauto.
Qed.

End ParserReturns.

(** ** The attachment renderer *)



(** ** The continuation-header stamper *)

Lemma nth_error_combine_seq {A} (l : list A) (s i : nat) :
  nth_error (combine (seq s (length l)) l) i
  = option_map (fun p => ((s + i)%nat, p)) (nth_error l i).
Proof.
  revert s i. induction l as [|x l IH]; intros s [|i]; simpl; auto.
  - now rewrite Nat.add_0_r.
  - rewrite IH. now rewrite Nat.add_succ_r.
Qed.

Lemma nth_error_enumerate_map {A B} (f : nat * A -> B) (l : list A)
  (i : nat) :
  nth_error (map f (enumerate l)) i
  = option_map (fun p => f (i, p)) (nth_error l i).
Proof.
  unfold enumerate. rewrite nth_error_map, nth_error_combine_seq.
  now destruct (nth_error l i).
Qed.

Lemma display_subject_length (subject : str) :
  (length (display_subject subject) <= 63)%nat
  /\ ((length subject <= 60)%nat -> display_subject subject = subject).
Proof.
  unfold display_subject, max_subject_len.
  destruct (60 <? length subject)%nat eqn:E.
  - apply Nat.ltb_lt in E. split; [|lia].
    rewrite length_app, length_firstn, Nat.min_l by lia.
    change (length (lit "...")) with 3%nat. lia.
  - apply Nat.ltb_ge in E. split; [lia|reflexivity].
Qed.

(** C7. For every input file the page library reads, the stamper writes as
    many pages as it read; an input of at most one page is written page for
    page, with no overlay; for a longer input the first page is written as
    it is and page [i], for every [i] from 2 on, is written with one
    overlay merged onto it, whose text is "Subject: ", the subject (its
    first 60 characters and "..." when it is longer), and
    " (continued - page i of TOTAL)". *)
Theorem add_continuation_headers_spec (input_pdf : pdf_file)
  (pages : list page) (subject : str) :
  pdf_pages input_pdf = Return pages ->
  exists out,
    add_continuation_headers input_pdf subject = pdf_write out
    /\ length out = length pages
    /\ ((length pages <= 1)%nat -> out = pages)
    /\ ((1 < length pages)%nat ->
        nth_error out 0 = nth_error pages 0
        /\ forall i p, (1 <= i)%nat -> nth_error pages i = Some p ->
             nth_error out i
             = Some (Merged p
                       (Drawn "Helvetica" 8 (4 # 10) 54 756
                          (lit "Subject: "
                           ++ (if (60 <? length subject)%nat
                               then firstn 60 subject ++ lit "..."
                               else subject)
                           ++ lit " (continued - page "
                           ++ str_of_int (Z.of_nat (i + 1))
                           ++ lit " of "
                           ++ str_of_int (Z.of_nat (length pages))
                           ++ lit ")")))
             /\ overlay_count
                  (Merged p (create_header_overlay subject (length pages)
                               (i + 1)))
                = S (overlay_count p)).
Proof.
  intros Hread. unfold add_continuation_headers. rewrite Hread.
  exists (continuation_pages pages subject). split; [reflexivity|].
  unfold continuation_pages.
  destruct (length pages <=? 1)%nat eqn:E.
  - apply Nat.leb_le in E. rewrite map_id.
    split; [reflexivity|]. split; [reflexivity|]. lia.
  - apply Nat.leb_gt in E. split; [|split; [lia|]].
    + unfold enumerate. rewrite length_map, length_combine, length_seq. lia.
    + intros _. split.
      * rewrite nth_error_enumerate_map. now destruct (nth_error pages 0).
      * intros i p Hi Hp. rewrite nth_error_enumerate_map, Hp. simpl.
        destruct (i =? 0)%nat eqn:Ei; [apply Nat.eqb_eq in Ei; lia|].
        split; reflexivity.
Qed.

(** ** The orchestrator *)






(** * Further properties *)

(** ** The mail parser: payloads, bodies and attachments *)

(** X1. Decoding a payload never raises, as long as the codec of the
    declared character set fails with a decoding or a lookup error only: a
    part without payload gives the empty string; otherwise the text is the
    declared character set's reading of the bytes, or, when that fails,
    their UTF-8 reading, or, when that fails too, their Latin-1 reading. *)
Theorem decode_payload_never_raises (p : part) :
  (forall charset payload e, decode_charset charset payload = Raise e ->
     exn_kind e = UnicodeDecodeError \/ exn_kind e = LookupError) ->
  exists text,
    _decode_payload p = Return text
    /\ (part_payload p = None -> text = [])
    /\ (forall payload, part_payload p = Some payload ->
          decode_charset (declared_charset p) payload = Return text
          \/ (raises (decode_charset (declared_charset p) payload)
              /\ decode_utf8 Strict payload = Return text)
          \/ (raises (decode_charset (declared_charset p) payload)
              /\ raises (decode_utf8 Strict payload)
              /\ text = map Byte.to_N payload)).
Proof.
  intros Herr. unfold _decode_payload. fold (declared_charset p).
  destruct (part_payload p) as [payload|].
  - unfold try_except_on.
    destruct (decode_charset (declared_charset p) payload) as [s|e] eqn:E.
    + exists s. split; [reflexivity|]. split; [discriminate|].
      intros payload' [= <-]. left. exact E.
    + assert (Hc : existsb (issubclass (exn_kind e))
                     [UnicodeDecodeError; LookupError] = true).
      { destruct (Herr _ _ _ E) as [-> | ->]; reflexivity. }
      rewrite Hc.
      destruct (decode_utf8 Strict payload) as [s|e'] eqn:E'.
      * exists s. split; [reflexivity|]. split; [discriminate|].
        intros payload' [= <-]. right. left. rewrite E, E'.
        split; [now exists e | reflexivity].
      * unfold decode_utf8 in E'.
        rewrite (utf8_go_strict_error _ _ _ E'). simpl.
        rewrite decode_latin1_total.
        exists (map Byte.to_N payload).
        split; [reflexivity|]. split; [discriminate|].
        intros payload' [= <-]. right. right. rewrite E.
        split; [now exists e|]. split; [|reflexivity].
        exists e'. exact E'.
  - exists []. split; [reflexivity|]. split; [reflexivity|]. discriminate.
Qed.

Lemma _parse_attachment_fresh (p : part) (a : Attachment) :
  _parse_attachment p = Some a -> attachment_fresh a.
Proof.
  unfold _parse_attachment, attachment_fresh.
  destruct (part_payload p) as [payload|]; [|discriminate].
  intros [= <-]. simpl. repeat split; auto.
  destruct (part_filename p) as [[|c cs]|]; discriminate.
Qed.

(** One round of the walk keeps a body text that is not empty and an HTML
    body that is set, and adds at most one attachment, a fresh one. *)
Lemma walk_step_spec (st st' : str * option str * list Attachment)
  (p : part) :
  walk_step st p = Return st' ->
  (fst (fst st) <> [] -> fst (fst st') = fst (fst st))
  /\ (forall h, snd (fst st) = Some h -> snd (fst st') = Some h)
  /\ exists added,
       snd st' = snd st ++ added
       /\ (length added <= 1)%nat /\ Forall attachment_fresh added.
Proof.
  destruct st as [[bt bh] atts]. unfold walk_step.
  assert (Hsame : forall r : str * option str * list Attachment,
            r = (bt, bh, atts) ->
            (fst (fst (bt, bh, atts)) <> [] -> fst (fst r) = bt)
            /\ (forall h, bh = Some h -> snd (fst r) = Some h)
            /\ exists added, snd r = atts ++ added
                 /\ (length added <= 1)%nat /\ Forall attachment_fresh added).
  { intros r ->. simpl. repeat split; auto.
    exists []. rewrite app_nil_r. repeat split; auto. }
  destruct (str_eqb (part_maintype p) (lit "multipart")).
  { intros [= <-]. now apply Hsame. }
  destruct (str_contains _ _ || truthy _).
  { destruct (_parse_attachment p) as [a|] eqn:Ea.
    - intros [= <-]. simpl. repeat split; auto.
      exists [a]. repeat split; auto. constructor; [|constructor].
      now apply (_parse_attachment_fresh p).
    - intros [= <-]. now apply Hsame. }
  destruct (str_eqb (part_content_type p) (lit "text/plain") && is_empty bt)
    eqn:Et.
  { apply andb_prop in Et as [_ Hbt].
    destruct bt; [|discriminate].
    destruct (_decode_payload p) as [t|e]; simpl; [|discriminate].
    intros [= <-]. simpl. split; [intros H; now destruct H|].
    split; auto. exists []. rewrite app_nil_r. repeat split; auto. }
  destruct (str_eqb (part_content_type p) (lit "text/html")
            && match bh with None => true | Some _ => false end) eqn:Eh.
  { apply andb_prop in Eh as [_ Hbh].
    destruct bh; [discriminate|].
    destruct (_decode_payload p) as [t|e]; simpl; [|discriminate].
    intros [= <-]. simpl. split; auto. split; [discriminate|].
    exists []. rewrite app_nil_r. repeat split; auto. }
  intros [= <-]. now apply Hsame.
Qed.

Lemma walk_loop_spec (parts : list part)
  (st st' : str * option str * list Attachment) :
  walk_loop parts st = Return st' ->
  (fst (fst st) <> [] -> fst (fst st') = fst (fst st))
  /\ (forall h, snd (fst st) = Some h -> snd (fst st') = Some h)
  /\ exists added,
       snd st' = snd st ++ added
       /\ (length added <= length parts)%nat
       /\ Forall attachment_fresh added.
Proof.
  revert st. induction parts as [|p parts IH]; simpl; intros st H.
  - injection H as <-. repeat split; auto.
    exists []. rewrite app_nil_r. repeat split; auto.
  - destruct (walk_step st p) as [st1|e] eqn:E1; simpl in H; [|discriminate].
    destruct (walk_step_spec _ _ _ E1) as (Ht1 & Hh1 & a1 & Ha1 & Hl1 & Hf1).
    destruct (IH _ H) as (Ht & Hh & a2 & Ha2 & Hl2 & Hf2).
    split; [|split].
    + intros Hne. rewrite Ht; [now apply Ht1|]. now rewrite Ht1.
    + intros h Hs. apply Hh. now apply Hh1.
    + exists (a1 ++ a2). rewrite Ha2, Ha1, app_assoc.
      split; [reflexivity|]. split.
      * rewrite length_app. lia.
      * apply Forall_app. auto.
Qed.

Lemma walk_loop_app (a b : list part)
  (st : str * option str * list Attachment) :
  walk_loop (a ++ b) st = (st1 <- walk_loop a st ;; walk_loop b st1).
Proof.
  revert st. induction a as [|p a IH]; simpl; intros st; auto.
  destruct (walk_step st p); simpl; auto.
Qed.

Lemma body_candidate_spec (content_type : string) (p : part) :
  body_candidate content_type p = true ->
  str_eqb (part_maintype p) (lit "multipart") = false
  /\ (str_contains (lit "attachment")
        (match part_disposition p with Some d => d | None => [] end)
      || truthy (part_filename p)) = false
  /\ part_content_type p = lit content_type.
Proof.
  unfold body_candidate, attachment_like. intros H.
  apply andb_prop in H as [H H3]. apply andb_prop in H as [H1 H2].
  apply negb_true_iff in H1, H2. apply str_eqb_eq in H3. auto.
Qed.

(** While no text part has given a text, the body text stays empty. *)
Lemma walk_loop_text_pending (parts : list part)
  (st st' : str * option str * list Attachment) :
  walk_loop parts st = Return st' -> fst (fst st) = [] ->
  (forall q, In q parts -> body_candidate "text/plain" q = true ->
     _decode_payload q = Return []) ->
  fst (fst st') = [].
Proof.
  revert st. induction parts as [|p parts IH]; simpl; intros st H Hbt Hq.
  - now injection H as <-.
  - destruct (walk_step st p) as [st1|e] eqn:E1; simpl in H; [|discriminate].
    apply (IH st1 H); [|auto].
    destruct st as [[bt bh] atts]. simpl in Hbt. subst bt.
    unfold walk_step in E1.
    destruct (str_eqb (part_maintype p) (lit "multipart")) eqn:Em.
    { now injection E1 as <-. }
    destruct (str_contains _ _ || truthy _) eqn:Ea.
    { destruct (_parse_attachment p); now injection E1 as <-. }
    destruct (str_eqb (part_content_type p) (lit "text/plain")) eqn:Et;
      simpl in E1.
    { rewrite (Hq p) in E1; [now injection E1 as <-|auto|].
      unfold body_candidate, attachment_like. now rewrite Em, Ea, Et. }
    destruct (str_eqb (part_content_type p) (lit "text/html")
              && match bh with None => true | Some _ => false end).
    { destruct (_decode_payload p); simpl in E1; [|discriminate].
      now injection E1 as <-. }
    now injection E1 as <-.
Qed.

(** While no HTML part has been met, the HTML body stays unset. *)
Lemma walk_loop_html_pending (parts : list part)
  (st st' : str * option str * list Attachment) :
  walk_loop parts st = Return st' -> snd (fst st) = None ->
  (forall q, In q parts -> body_candidate "text/html" q = false) ->
  snd (fst st') = None.
Proof.
  revert st. induction parts as [|p parts IH]; simpl; intros st H Hbh Hq.
  - now injection H as <-.
  - destruct (walk_step st p) as [st1|e] eqn:E1; simpl in H; [|discriminate].
    apply (IH st1 H); [|auto].
    destruct st as [[bt bh] atts]. simpl in Hbh. subst bh.
    unfold walk_step in E1.
    destruct (str_eqb (part_maintype p) (lit "multipart")) eqn:Em.
    { now injection E1 as <-. }
    destruct (str_contains _ _ || truthy _) eqn:Ea.
    { destruct (_parse_attachment p); now injection E1 as <-. }
    destruct (str_eqb (part_content_type p) (lit "text/plain") && is_empty bt).
    { destruct (_decode_payload p); simpl in E1; [|discriminate].
      now injection E1 as <-. }
    destruct (str_eqb (part_content_type p) (lit "text/html")) eqn:Eh;
      simpl in E1.
    { specialize (Hq p (or_introl eq_refl)).
      unfold body_candidate, attachment_like in Hq.
      rewrite Em, Ea, Eh in Hq. discriminate. }
    now injection E1 as <-.
Qed.

(** X3. Which parts give the bodies.  A message that is not multipart has
    no attachments, and an HTML body only with an empty text body.  In a
    multipart message the text body is the text of the first body part of
    type text/plain whose text is not empty (an earlier one with an empty
    text is passed over), the HTML body is the text of the first body part
    of type text/html, empty or not, and there are at most as many
    attachments as parts. *)
Theorem extract_body_first_wins (m : message) (body_text : str)
  (body_html : option str) (atts : list Attachment) :
  _extract_body_and_attachments m = Return (body_text, body_html, atts) ->
  (msg_is_multipart m = false ->
     atts = [] /\ (body_html <> None -> body_text = []))
  /\ (msg_is_multipart m = true ->
      (length atts <= length (msg_walk m))%nat
      /\ (forall pre p post text,
            msg_walk m = pre ++ p :: post ->
            body_candidate "text/plain" p = true ->
            _decode_payload p = Return text -> text <> [] ->
            (forall q, In q pre -> body_candidate "text/plain" q = true ->
               _decode_payload q = Return []) ->
            body_text = text)
      /\ (forall pre p post html,
            msg_walk m = pre ++ p :: post ->
            body_candidate "text/html" p = true ->
            _decode_payload p = Return html ->
            (forall q, In q pre -> body_candidate "text/html" q = false) ->
            body_html = Some html)).
Proof.
  unfold _extract_body_and_attachments. intros H. split.
  - intros Hm. rewrite Hm in H.
    destruct (str_eqb (part_content_type (msg_root m)) (lit "text/plain")).
    { destruct (_decode_payload (msg_root m)); simpl in H; [|discriminate].
      injection H as <- <- <-. split; [reflexivity|]. intros Hn. now elim Hn. }
    destruct (str_eqb (part_content_type (msg_root m)) (lit "text/html")).
    { destruct (_decode_payload (msg_root m)); simpl in H; [|discriminate].
      injection H as <- <- <-. split; reflexivity. }
    injection H as <- <- <-. split; reflexivity.
  - intros Hm. rewrite Hm in H. split; [|split].
    + destruct (walk_loop_spec _ _ _ H) as (_ & _ & added & Ha & Hl & _).
      simpl in Ha. now subst atts.
    + intros pre p post text Hw Hc Hd Hne Hpre.
      rewrite Hw, walk_loop_app in H.
      destruct (walk_loop pre ([], None, [])) as [st1|e] eqn:E1;
        simpl in H; [|discriminate].
      pose proof (walk_loop_text_pending _ _ _ E1 eq_refl Hpre) as Hbt1.
      destruct st1 as [[bt1 bh1] atts1]. simpl in Hbt1. subst bt1.
      destruct (body_candidate_spec _ _ Hc) as (Hc1 & Hc2 & Hc3).
      unfold walk_step in H at 1. rewrite Hc1, Hc2, Hc3, Hd in H.
      simpl in H.
      destruct (walk_loop_spec _ _ _ H) as (Hkeep & _). simpl in Hkeep.
      now apply Hkeep.
    + intros pre p post html Hw Hc Hd Hpre.
      rewrite Hw, walk_loop_app in H.
      destruct (walk_loop pre ([], None, [])) as [st1|e] eqn:E1;
        simpl in H; [|discriminate].
      pose proof (walk_loop_html_pending _ _ _ E1 eq_refl Hpre) as Hbh1.
      destruct st1 as [[bt1 bh1] atts1]. simpl in Hbh1. subst bh1.
      destruct (body_candidate_spec _ _ Hc) as (Hc1 & Hc2 & Hc3).
      unfold walk_step in H at 1. rewrite Hc1, Hc2, Hc3, Hd in H.
      simpl in H.
      destruct (walk_loop_spec _ _ _ H) as (_ & Hkeep & _). simpl in Hkeep.
      now apply Hkeep.
Qed.

Lemma _extract_attachments_fresh (m : message) (body_text : str)
  (body_html : option str) (atts : list Attachment) :
  _extract_body_and_attachments m = Return (body_text, body_html, atts) ->
  Forall attachment_fresh atts.
Proof.
  unfold _extract_body_and_attachments.
  destruct (msg_is_multipart m).
  - intros H.
    destruct (walk_loop_spec _ _ _ H) as (_ & _ & added & Ha & _ & Hf).
    simpl in Ha. now subst atts.
  - destruct (str_eqb _ (lit "text/plain")).
    { destruct (_decode_payload _); simpl; [|discriminate].
      intros [= <- <- <-]. constructor. }
    destruct (str_eqb _ (lit "text/html")).
    { destruct (_decode_payload _); simpl; [|discriminate].
      intros [= <- <- <-]. constructor. }
    intros [= <- <- <-]. constructor.
Qed.

(** What a parsed email holds of its message. *)
Lemma _parse_message_fields (m : message) (e : Email) :
  _parse_message m = Return (Some e) ->
  parsedate_to_datetime (msg_get_default m "Date" []) = Return (date e)
  /\ subject e = msg_get_default m "Subject" []
  /\ from_addr e = msg_get_default m "From" []
  /\ to_addr e = msg_get_default m "To" []
  /\ in_reply_to e = msg_get m "In-Reply-To"
  /\ exists body_text body_html,
       _extract_body_and_attachments m
       = Return (body_text, body_html, attachments e).
Proof.
  unfold _parse_message.
  destruct (parsedate_to_datetime _) as [d|ex].
  - destruct (_extract_body_and_attachments m) as [[[bt bh] atts]|ex];
      simpl; [|discriminate].
    intros [= <-]. simpl. repeat split; eauto.
  - destruct (existsb _ _); discriminate.
Qed.

(** The emails of the messages of a file whose date parses, in file
    order. *)
Lemma parse_messages_spec (ms : list message) (es : list Email) :
  parse_messages ms = Return es ->
  (length es <= length ms)%nat
  /\ (forall m e, In m ms -> _parse_message m = Return (Some e) -> In e es).
Proof.
  revert es. induction ms as [|m ms IH]; simpl; intros es H.
  - injection H as <-. split; [simpl; lia|]. intros m e [].
  - destruct (_parse_message m) as [o|ex] eqn:Em; simpl in H; [|discriminate].
    destruct (parse_messages ms) as [rest|ex]; simpl in H; [|discriminate].
    injection H as <-. destruct (IH _ eq_refl) as [Hl Hin].
    split.
    + destruct o; simpl; lia.
    + intros m' e [<-|Hm'] He.
      * rewrite Em in He. injection He as ->. now left.
      * destruct o; [right|]; eauto.
Qed.

(** X2. Every attachment of every email the parser returns is as parsed:
    its size is the length of its bytes, so never negative, it has a file
    name ("unnamed_attachment" at least), and none of the fields of the
    renderer is set. *)
Theorem parsed_attachments_fresh (mbox_path : str) (es : list Email) :
  parse_mbox mbox_path = Return es ->
  forall e a, In e es -> In a (attachments e) ->
    size_bytes a = Z.of_nat (length (raw_content a))
    /\ 0 <= size_bytes a
    /\ filename a <> []
    /\ rendered_content a = None /\ content_type a = None /\ error a = None.
Proof.
  intros Hp e a He Ha.
  destruct (parse_mbox_source _ _ Hp) as (ms & _ & Hsrc).
  destruct (Hsrc e He) as (m & _ & Hm).
  destruct (_parse_message_fields _ _ Hm) as (_ & _ & _ & _ & _ & bt & bh & Hx).
  pose proof (_extract_attachments_fresh _ _ _ _ Hx) as Hf.
  rewrite Forall_forall in Hf.
  destruct (Hf a Ha) as (H1 & H2 & H3 & H4 & H5).
  repeat split; auto. rewrite H1. lia.
Qed.

(** X4. What the parser returns for a file: a list sorted by date
    ascending, that holds exactly the emails of the messages of the file
    whose date could be parsed, each with the date the date parser gave;
    a message whose date cannot be parsed gives no email and no error, so
    the list is at most as long as the file. *)
Theorem parse_mbox_sorted_complete (mbox_path : str) (ms : list message)
  (es : list Email) :
  mbox_files mbox_path = Some ms ->
  parse_mbox mbox_path = Return es ->
  date_sorted es
  /\ (length es <= length ms)%nat
  /\ (forall e, In e es <->
        exists m, In m ms /\ _parse_message m = Return (Some e))
  /\ (forall e, In e es ->
        exists m, In m ms
          /\ parsedate_to_datetime (msg_get_default m "Date" [])
             = Return (date e))
  /\ (forall m ex, In m ms ->
        parsedate_to_datetime (msg_get_default m "Date" []) = Raise ex ->
        exn_kind ex = ValueError \/ exn_kind ex = TypeError ->
        _parse_message m = Return None).
Proof.
  intros Hf Hp. unfold parse_mbox in Hp. rewrite Hf in Hp.
  destruct (parse_messages ms) as [raw|ex] eqn:E; simpl in Hp; [|discriminate].
  injection Hp as <-.
  destruct (parse_messages_spec _ _ E) as [Hl Hin].
  assert (Hperm := sort_by_date_perm raw).
  split; [apply sort_by_date_sorted|].
  split; [rewrite (Permutation_length Hperm); exact Hl|].
  split; [|split].
  - intros e. split.
    + intros He. apply (parse_messages_source _ _ E).
      eapply Permutation_in; [exact Hperm|exact He].
    + intros (m & Hm & He).
      eapply Permutation_in; [symmetry; exact Hperm|]. eauto.
  - intros e He.
    destruct (parse_messages_source _ _ E e) as (m & Hm & Hpm).
    { eapply Permutation_in; [exact Hperm|exact He]. }
    exists m. split; [exact Hm|].
    apply (_parse_message_fields _ _ Hpm).
  - intros m ex _ Hd Hk. unfold _parse_message. rewrite Hd.
    destruct Hk as [-> | ->]; reflexivity.
Qed.

(** ** The deduplicator: one file, and the order of the files *)








(** ** The date grouper: the buckets, and the order of the keys *)

Lemma str_eqb_sym (a b : str) : str_eqb a b = str_eqb b a.
Proof.
  destruct (str_eqb a b) eqn:E; symmetry.
  - apply str_eqb_eq in E. subst. apply str_eqb_refl.
  - apply str_eqb_neq. apply str_eqb_neq in E. congruence.
Qed.

Lemma dict_get_bucket_append (k k' : str) (e : Email)
  (g : dict (list Email)) :
  dict_get k (bucket_append k' e g)
  = if str_eqb k k'
    then Some (match dict_get k g with Some b => b | None => [] end ++ [e])
    else dict_get k g.
Proof.
  induction g as [|[k0 b0] g IH]; simpl.
  - destruct (str_eqb k k'); reflexivity.
  - destruct (str_eqb k' k0) eqn:E0; simpl.
    + apply str_eqb_eq in E0. subst k0.
      destruct (str_eqb k k'); reflexivity.
    + rewrite IH. destruct (str_eqb k k0) eqn:E1; auto.
      apply str_eqb_eq in E1. subst k0.
      rewrite str_eqb_sym in E0. now rewrite E0.
Qed.

(** The bucket of a key after the grouping loop: the bucket it had, then
    the emails of that key, in the order of the input. *)
Lemma dict_get_grouping_loop (strategy k : str) (emails : list Email)
  (g : dict (list Email)) :
  dict_get k (fold_left (group_step strategy) emails g)
  = match dict_get k g,
          filter (fun e => str_eqb (_get_group_key (date e) strategy) k)
            emails
    with
    | Some b, f => Some (b ++ f)
    | None, [] => None
    | None, f => Some f
    end.
Proof.
  revert g. induction emails as [|e emails IH]; simpl; intros g.
  - destruct (dict_get k g); [now rewrite app_nil_r | reflexivity].
  - rewrite group_step_bucket_append, IH, dict_get_bucket_append.
    rewrite (str_eqb_sym k).
    destruct (str_eqb (_get_group_key (date e) strategy) k).
    + destruct (dict_get k g); simpl; [now rewrite <- app_assoc | reflexivity].
    + reflexivity.
Qed.

Lemma dict_get_In {V} (k : str) (v : V) (d : dict V) :
  NoDup (map fst d) -> In (k, v) d -> dict_get k d = Some v.
Proof.
  induction d as [|[k0 v0] d IH]; simpl; intros Hnd Hin; [destruct Hin|].
  inversion Hnd as [|? ? Hk Hnd']; subst.
  destruct Hin as [[= -> ->]|Hin].
  - now rewrite str_eqb_refl.
  - destruct (str_eqb k k0) eqn:E; auto.
    apply str_eqb_eq in E. subst. exfalso. apply Hk.
    apply in_map_iff. now exists (k0, v).
Qed.

Lemma dict_get_Some_In {V} (k : str) (v : V) (d : dict V) :
  dict_get k d = Some v -> In (k, v) d.
Proof.
  induction d as [|[k0 v0] d IH]; simpl; [discriminate|].
  destruct (str_eqb k k0) eqn:E.
  - apply str_eqb_eq in E. subst. intros [= ->]. now left.
  - intros H. right. auto.
Qed.

Lemma concat_length_nonempty {A} (l : list (list A)) :
  Forall (fun b => b <> []) l -> (length l <= length (concat l))%nat.
Proof.
  induction 1 as [|b l Hb _ IH]; simpl; auto.
  rewrite length_app. destruct b; [congruence|]. simpl. lia.
Qed.

(** The groups the grouper returns, bucket by bucket. *)
Lemma group_emails_by_date_buckets (emails : list Email) (strategy : str)
  (groups : dict (list Email)) :
  group_emails_by_date emails strategy = Return groups ->
  (forall k b, In (k, b) groups ->
     b = sort_by_date
           (filter (fun e => str_eqb (_get_group_key (date e) strategy) k)
              emails)
     /\ b <> [])
  /\ (forall e, In e emails ->
        exists b, In (_get_group_key (date e) strategy, b) groups /\ In e b)
  /\ NoDup (map fst groups)
  /\ (length groups <= length emails)%nat.
Proof.
  unfold group_emails_by_date.
  destruct (valid_strategy strategy); simpl; [|discriminate].
  destruct emails as [|e0 emails'] eqn:Eem.
  { intros [= <-]. split; [intros k b []|].
    split; [intros e []|]. split; [constructor | simpl; lia]. }
  rewrite <- Eem. clear Eem e0 emails'.
  set (g := fold_left (group_step strategy) emails []).
  set (gs := map (fun kv => (fst kv, sort_by_date (snd kv))) g).
  destruct (grouping_loop strategy emails [] (NoDup_nil _) (Forall_nil _))
    as (Hnd & Hk & Hp). fold g in Hnd, Hk, Hp. simpl in Hp.
  assert (Hkeys : map fst gs = map fst g).
  { unfold gs. rewrite map_map. reflexivity. }
  assert (Hperm : Permutation (sort_by item_le gs) gs) by apply sort_by_perm.
  assert (Hnd' : NoDup (map fst (sort_by item_le gs))).
  { eapply Permutation_NoDup.
    - symmetry. apply Permutation_map. exact Hperm.
    - now rewrite Hkeys. }
  rewrite dict_of_items_distinct by exact Hnd'. intros [= <-].
  assert (Hget : forall k b0, In (k, b0) g ->
            b0 = filter (fun e => str_eqb (_get_group_key (date e) strategy) k)
                   emails /\ b0 <> []).
  { intros k b0 Hin. apply (dict_get_In _ _ _ Hnd) in Hin.
    unfold g in Hin. rewrite dict_get_grouping_loop in Hin. simpl in Hin.
    destruct (filter _ emails) as [|x f]; [discriminate|].
    injection Hin as <-. split; [reflexivity | discriminate]. }
  assert (Hne : forall l : list Email, l <> [] -> sort_by_date l <> []).
  { intros l Hl Hs. apply Hl.
    apply Permutation_nil. rewrite <- Hs. apply sort_by_date_perm. }
  split; [|split; [|split]].
  - intros k b Hin.
    apply (Permutation_in _ Hperm) in Hin. unfold gs in Hin.
    apply in_map_iff in Hin as ([k0 b0] & [= <- <-] & Hin0).
    destruct (Hget _ _ Hin0) as [Hb0 Hne0]. simpl.
    split; [now rewrite <- Hb0 | now apply Hne].
  - intros e He.
    set (k := _get_group_key (date e) strategy).
    assert (Hf : In e (filter (fun e' => str_eqb
                                 (_get_group_key (date e') strategy) k)
                         emails)).
    { apply filter_In. split; auto. apply str_eqb_refl. }
    assert (Hg : dict_get k g
                 = Some (filter (fun e' => str_eqb
                                   (_get_group_key (date e') strategy) k)
                           emails)).
    { unfold g. rewrite dict_get_grouping_loop. simpl.
      destruct (filter _ emails); [destruct Hf | reflexivity]. }
    apply dict_get_Some_In in Hg.
    exists (sort_by_date
              (filter (fun e' => str_eqb (_get_group_key (date e') strategy) k)
                 emails)).
    split.
    + eapply Permutation_in; [symmetry; exact Hperm|].
      unfold gs. apply in_map_iff. eexists. split; [|exact Hg]. reflexivity.
    + eapply Permutation_in; [symmetry; apply sort_by_date_perm | exact Hf].
  - exact Hnd'.
  - rewrite (Permutation_length Hperm). unfold gs. rewrite length_map.
    rewrite <- (Permutation_length Hp), <- (length_map snd g).
    apply concat_length_nonempty.
    apply Forall_forall. intros b Hb.
    apply in_map_iff in Hb as ([k b0] & <- & Hin). simpl.
    apply (Hget _ _ Hin).
Qed.

(** X7. What the grouper returns, bucket by bucket: the bucket of a key is
    the input filtered to the emails of that key and stably sorted by date,
    so it is never empty and emails of equal date keep the order of the
    input; every email of the input has its key among the keys, the keys
    are pairwise distinct, and there are at most as many groups as
    emails. *)
Theorem group_buckets_exact (emails : list Email) (strategy : str)
  (groups : dict (list Email)) :
  group_emails_by_date emails strategy = Return groups ->
  (forall k b, In (k, b) groups ->
     b = sort_by_date
           (filter (fun e => str_eqb (_get_group_key (date e) strategy) k)
              emails)
     /\ b <> [])
  /\ (forall e, In e emails ->
        exists b, In (_get_group_key (date e) strategy, b) groups /\ In e b)
  /\ NoDup (map fst groups)
  /\ (length groups <= length emails)%nat.
Proof. apply group_emails_by_date_buckets. Qed.

Lemma str_lt_app_same_length (a b x y : str) :
  length a = length b -> str_lt a b -> str_lt (a ++ x) (b ++ y).
Proof.
  unfold str_lt. revert b.
  induction a as [|c a IH]; intros [|d b]; simpl; try discriminate.
  intros Hl. injection Hl as Hl.
  destruct (N.compare c d); auto.
Qed.

Lemma str_lt_app_head (a x y : str) : str_lt x y -> str_lt (a ++ x) (a ++ y).
Proof.
  unfold str_lt. intros H. induction a as [|c a IH]; simpl; auto.
  now rewrite N.compare_refl.
Qed.

(** Years of four digits are written in their order. *)
Lemma year_strings_ordered (y1 y2 : Z) :
  1000 <= y1 -> y1 < y2 -> y2 <= 9999 ->
  str_lt (str_of_int y1) (str_of_int y2).
Proof.
  intros H1 Hlt H2.
  assert (Hadj : forall y, 1000 <= y < 9999 ->
            str_lt (str_of_int y) (str_of_int (y + 1))).
  { intros y Hy.
    assert (H : forallb (fun n =>
                  match str_compare (str_of_int (1000 + Z.of_nat n))
                          (str_of_int (1000 + Z.of_nat n + 1))
                  with Lt => true | _ => false end)
                  (seq 0 (Z.to_nat 8999)) = true)
      by (vm_compute; reflexivity).
    rewrite forallb_forall in H.
    specialize (H (Z.to_nat (y - 1000))).
    rewrite Z2Nat.id in H by lia.
    replace (1000 + (y - 1000)) with y in H by lia.
    unfold str_lt.
    destruct (str_compare (str_of_int y) (str_of_int (y + 1))); auto;
      (assert (false = true) by (apply H, in_seq; lia); discriminate). }
  assert (Hn : forall n y, 1000 <= y -> y + Z.of_nat (S n) <= 9999 ->
            str_lt (str_of_int y) (str_of_int (y + Z.of_nat (S n)))).
  { induction n as [|n IH]; intros y Hy Hmax.
    - apply Hadj. lia.
    - eapply str_lt_trans; [apply (IH y Hy); lia|].
      replace (y + Z.of_nat (S (S n))) with (y + Z.of_nat (S n) + 1) by lia.
      apply Hadj. lia. }
  replace y2 with (y1 + Z.of_nat (S (Z.to_nat (y2 - y1 - 1)))) by lia.
  apply Hn; lia.
Qed.

Lemma month_strings_ordered (m1 m2 : Z) :
  1 <= m1 -> m1 < m2 -> m2 <= 12 ->
  str_lt (zfill 2 (str_of_int m1)) (zfill 2 (str_of_int m2)).
Proof.
  intros H1 Hlt H2.
  assert (H : forallb (fun a => forallb (fun b =>
                implb (a <? b)%nat
                  match str_compare
                          (zfill 2 (str_of_int (Z.of_nat a)))
                          (zfill 2 (str_of_int (Z.of_nat b)))
                  with Lt => true | _ => false end)
                (seq 1 12)) (seq 1 12) = true)
    by (vm_compute; reflexivity).
  rewrite forallb_forall in H.
  specialize (H (Z.to_nat m1)). rewrite forallb_forall in H.
  assert (Hin1 : In (Z.to_nat m1) (seq 1 12)) by (apply in_seq; lia).
  assert (Hin2 : In (Z.to_nat m2) (seq 1 12)) by (apply in_seq; lia).
  specialize (H Hin1 (Z.to_nat m2) Hin2).
  rewrite !Z2Nat.id in H by lia.
  assert (Hb : (Z.to_nat m1 <? Z.to_nat m2)%nat = true)
    by (apply Nat.ltb_lt; lia).
  rewrite Hb in H. simpl in H. unfold str_lt.
  destruct (str_compare _ _); auto; discriminate.
Qed.

Lemma quarter_strings_ordered (q1 q2 : Z) :
  1 <= q1 -> q1 < q2 -> q2 <= 4 ->
  str_lt (str_of_int q1) (str_of_int q2).
Proof.
  intros H1 Hlt H2.
  assert (Hc : (q1 = 1 \/ q1 = 2 \/ q1 = 3) /\ (q2 = 2 \/ q2 = 3 \/ q2 = 4))
    by lia.
  destruct Hc as [[-> | [-> | ->]] [-> | [-> | ->]]];
    try lia; reflexivity.
Qed.

(** X8. For dates with a year of four digits, the keys sort as the dates
    do: an earlier year, or the same year and an earlier month, gives a
    smaller month key; an earlier year, or the same year and an earlier
    quarter, a smaller quarter key; an earlier year a smaller year key.
    The year of the quarter and year keys is not padded: the key of the
    year 1000 sorts before the key of the year 999. *)
Theorem group_keys_chronological (d1 d2 : datetime) :
  1000 <= year d1 <= 9999 -> 1000 <= year d2 <= 9999 ->
  1 <= month d1 <= 12 -> 1 <= month d2 <= 12 ->
  (year d1 < year d2 \/ (year d1 = year d2 /\ month d1 < month d2) ->
     str_lt (_get_group_key d1 (lit "month"))
       (_get_group_key d2 (lit "month")))
  /\ (year d1 < year d2
      \/ (year d1 = year d2
          /\ (month d1 - 1) / 3 + 1 < (month d2 - 1) / 3 + 1) ->
      str_lt (_get_group_key d1 (lit "quarter"))
        (_get_group_key d2 (lit "quarter")))
  /\ (year d1 < year d2 ->
      str_lt (_get_group_key d1 (lit "year"))
        (_get_group_key d2 (lit "year")))
  /\ str_lt (_get_group_key (mkDate 1000 1 1 0 0 0 0) (lit "year"))
       (_get_group_key (mkDate 999 1 1 0 0 0 0) (lit "year")).
Proof.
  intros Hy1 Hy2 Hm1 Hm2.
  destruct (year_four_digits _ Hy1) as [Hl1 Hz1].
  destruct (year_four_digits _ Hy2) as [Hl2 Hz2].
  assert (Hmonth : forall d, _get_group_key d (lit "month")
            = zfill 4 (str_of_int (year d)) ++ lit "-"
              ++ zfill 2 (str_of_int (month d)) ++ lit "-"
              ++ month_name (month d)).
  { intros d. unfold _get_group_key. rewrite str_eqb_refl.
    unfold strftime. cbn. now rewrite app_nil_r. }
  split; [|split; [|split]].
  - rewrite !Hmonth, Hz1, Hz2. intros [Hlt | [Heq Hlt]].
    + apply str_lt_app_same_length; [congruence|].
      apply year_strings_ordered; lia.
    + rewrite Heq. apply str_lt_app_head, str_lt_app_head.
      apply str_lt_app_same_length.
      * rewrite !month_two_digits; auto.
      * apply month_strings_ordered; lia.
  - change (_get_group_key d1 (lit "quarter"))
      with (str_of_int (year d1) ++ lit "-Q"
            ++ str_of_int ((month d1 - 1) / 3 + 1)).
    change (_get_group_key d2 (lit "quarter"))
      with (str_of_int (year d2) ++ lit "-Q"
            ++ str_of_int ((month d2 - 1) / 3 + 1)).
    intros [Hlt | [Heq Hlt]].
    + apply str_lt_app_same_length; [congruence|].
      apply year_strings_ordered; lia.
    + rewrite Heq. apply str_lt_app_head, str_lt_app_head.
      assert (0 <= (month d1 - 1) / 3) by (apply Z.div_pos; lia).
      assert ((month d2 - 1) / 3 < 4) by (apply Z.div_lt_upper_bound; lia).
      apply quarter_strings_ordered; lia.
  - intros Hlt.
    change (str_lt (str_of_int (year d1)) (str_of_int (year d2))).
    apply year_strings_ordered; lia.
  - reflexivity.
Qed.

(** ** The renderers: what rendering leaves on an attachment *)











(** ** The orchestrator: what a run accounts for *)






Lemma attachment_issue_category (email : Email) (a : Attachment) :
  Forall orchestrator_category (attachment_issue email a).
Proof.
  unfold attachment_issue.
  destruct (error a) as [[|c msg]|].
  - destruct (content_type a) as [t|]; [|constructor].
    destruct (str_eqb t (lit "reference")); constructor;
      [now right | constructor].
  - constructor; [now left | constructor].
  - destruct (content_type a) as [t|]; [|constructor].
    destruct (str_eqb t (lit "reference")); constructor;
      [now right | constructor].
Qed.

Lemma process_email_category (email : Email) :
  Forall orchestrator_category (fst (process_email email)).
Proof.
  unfold process_email.
  destruct (render_email_to_html email) as [[html email']|e]; simpl.
  - apply Forall_flat_map, Forall_forall. intros a _.
    apply attachment_issue_category.
  - constructor.
Qed.

(** One round of the loop over the emails: a PDF more or an error more. *)
Lemma email_step_spec (pdfs : list pdf_file) (st : run_state)
  (email : Email) :
  let r := email_step (pdfs, st) email in
  st_created_files (snd r) = st_created_files st
  /\ (length (fst r) + length (st_errors (snd r))
      = S (length pdfs + length (st_errors st)))%nat
  /\ (exists more, fst r = pdfs ++ more)
  /\ (exists more, st_errors (snd r) = st_errors st ++ more)
  /\ (Forall orchestrator_category (st_attachment_errors st) ->
      Forall orchestrator_category (st_attachment_errors (snd r))).
Proof.
  unfold email_step.
  pose proof (process_email_category email) as Hcat.
  destruct (process_email email) as [infos [pdf|e]]; simpl in *.
  - repeat split.
    + rewrite length_app. simpl. lia.
    + now exists [pdf].
    + exists []. now rewrite app_nil_r.
    + intros H. apply Forall_app. auto.
  - repeat split.
    + rewrite length_app. simpl. lia.
    + exists []. now rewrite app_nil_r.
    + eexists. reflexivity.
    + intros H. apply Forall_app. auto.
Qed.

Lemma email_loop_spec (emails : list Email) (pdfs : list pdf_file)
  (st : run_state) :
  let r := fold_left email_step emails (pdfs, st) in
  st_created_files (snd r) = st_created_files st
  /\ (length (fst r) + length (st_errors (snd r))
      = length emails + (length pdfs + length (st_errors st)))%nat
  /\ (exists more, st_errors (snd r) = st_errors st ++ more)
  /\ (Forall orchestrator_category (st_attachment_errors st) ->
      Forall orchestrator_category (st_attachment_errors (snd r))).
Proof.
  revert pdfs st. induction emails as [|e emails IH]; intros pdfs st.
  - simpl. repeat split; auto. exists []. now rewrite app_nil_r.
  - cbn [fold_left].
    destruct (email_step_spec pdfs st e) as (H1 & H2 & _ & [m1 H4] & H5).
    destruct (email_step (pdfs, st) e) as [pdfs1 st1].
    cbn [fst snd length] in *.
    destruct (IH pdfs1 st1) as (I1 & I2 & [m2 I3] & I4).
    cbv zeta in *.
    split; [congruence|]. split; [lia|]. split.
    + exists (m1 ++ m2). now rewrite I3, H4, app_assoc.
    + auto.
Qed.

(** X13. The loop over the emails of a group accounts for every email:
    each one gives a PDF or one more error, never both and never neither;
    the loop creates no file, keeps the errors it had, and records
    attachment issues of the two categories of the orchestrator only. *)
Theorem email_loop_accounts_for_every_email (emails : list Email)
  (st : run_state) :
  exists pdfs st',
    fold_left email_step emails ([], st) = (pdfs, st')
    /\ (length pdfs + (length (st_errors st') - length (st_errors st))
        = length emails)%nat
    /\ (exists more, st_errors st' = st_errors st ++ more)
    /\ st_created_files st' = st_created_files st
    /\ (Forall orchestrator_category (st_attachment_errors st) ->
        Forall orchestrator_category (st_attachment_errors st')).
Proof.
  destruct (email_loop_spec emails [] st) as (H1 & H2 & [m H3] & H4).
  destruct (fold_left email_step emails ([], st)) as [pdfs st'].
  simpl in *. exists pdfs, st'. split; [reflexivity|].
  split; [|split; [now exists m | auto]].
  rewrite H3 in *. rewrite length_app in *. lia.
Qed.








Section AllFail.
Hypothesis generate_pdf_fails : forall html, raises (generate_pdf html).





End AllFail.


Lemma read_all_pages_spec (pdfs : list pdf_file) (pagess : list (list page)) :
  Forall2 (fun pdf pages => pdf_pages pdf = Return pages) pdfs pagess ->
  read_all_pages pdfs = Return (concat pagess).
Proof.
  induction 1 as [|pdf pages pdfs pagess Hp _ IH]; simpl; auto.
  now rewrite Hp, IH.
Qed.

(** X17. Merging PDFs writes the pages of the inputs, all of them and in
    the order of the inputs, so as many pages as the inputs have together;
    and when one input cannot be read while those before it can, its
    exception is raised and nothing is written. *)
Theorem merge_pdfs_concatenates (pdfs : list pdf_file)
  (pagess : list (list page)) :
  Forall2 (fun pdf pages => pdf_pages pdf = Return pages) pdfs pagess ->
  merge_pdfs pdfs = pdf_write (concat pagess)
  /\ length (concat pagess) = list_sum (map (@length page) pagess)
  /\ (forall bad rest e, pdf_pages bad = Raise e ->
        merge_pdfs (pdfs ++ bad :: rest) = Raise e).
Proof.
  intros Hall. split; [|split].
  - unfold merge_pdfs. now rewrite (read_all_pages_spec _ _ Hall).
  - clear Hall. induction pagess as [|p ps IH]; simpl; auto.
    rewrite length_app. lia.
  - intros bad rest e Hbad. unfold merge_pdfs.
    assert (H : read_all_pages (pdfs ++ bad :: rest) = Raise e).
    { induction Hall as [|pdf pages pdfs pagess Hp _ IH]; simpl.
      - now rewrite Hbad.
      - now rewrite Hp, IH. }
    now rewrite H.
Qed.

(** ** Error handling *)

Lemma Qltb_1024 (q : Q) :
  Qltb q 1024 = (Qnum q <? 1024 * Zpos (Qden q)).
Proof.
  unfold Qltb, Qle_bool. cbn [Qnum Qden]. rewrite Z.ltb_antisym.
  f_equal. f_equal. lia.
Qed.

Lemma format_loops_agree (size : Q) (units : list string) :
  format_file_size_loop size units = format_size_loop size units.
Proof.
  revert size. induction units as [|unit units IH]; intros size; simpl; auto.
  destruct (Qltb size 1024); [|apply IH].
  now destruct (String.eqb unit "B").
Qed.

Lemma format_size_loop_bytes (n : Z) (units : list string) :
  n < 1024 ->
  format_size_loop (inject_Z n) ("B"%string :: units)
  = str_of_int n ++ lit " B".
Proof.
  intros Hn. cbn [format_size_loop]. rewrite Qltb_1024. cbn [Qnum Qden inject_Z].
  replace (n <? 1024 * 1) with true by (symmetry; apply Z.ltb_lt; lia).
  cbn. unfold int_of_float. cbn [Qnum Qden inject_Z].
  now rewrite Z.quot_1_r.
Qed.

(** X18. The two size formatters, of the attachment cards and of the error
    records, give the same text for every size that is not negative; for a
    negative size the error records show "0 B" while the cards show the
    negative number of bytes. *)
Theorem format_file_size_agrees_with_display (a : Attachment) :
  (0 <= size_bytes a ->
   format_file_size (size_bytes a) = format_size_for_display a)
  /\ (size_bytes a < 0 ->
      format_file_size (size_bytes a) = lit "0 B"
      /\ format_size_for_display a = str_of_int (size_bytes a) ++ lit " B").
Proof.
  unfold format_file_size, format_size_for_display. split; intros H.
  - replace (size_bytes a <? 0) with false by (symmetry; apply Z.ltb_ge; lia).
    apply format_loops_agree.
  - replace (size_bytes a <? 0) with true by (symmetry; apply Z.ltb_lt; lia).
    split; [reflexivity|]. apply format_size_loop_bytes. lia.
Qed.



Lemma classify_attachment_error_cases (e : error_value)
  (attachment_filename mime_type : str) :
  let c := classify_attachment_error e attachment_filename mime_type in
  (err_class e <> ErrOther /\
   (forall f' mt', classify_attachment_error e f' mt' = c)
   /\ In c [lit "encoding_error"; lit "missing_library"; lit "corrupted";
            lit "password_protected"; lit "empty_file";
            lit "unsupported_variant"; lit "too_large"])
  \/ (err_class e = ErrOther /\
      ((In c [lit "password_protected"; lit "corrupted";
              lit "unsupported_variant"]
        /\ forall f' mt', classify_attachment_error e f' mt' = c)
       \/ (c = lit "unsupported"
           /\ is_unsupported_file_type mime_type attachment_filename = true)
       \/ (c = lit "unknown"
           /\ is_unsupported_file_type mime_type attachment_filename
              = false))).
Proof.
  destruct e as [cls s]. unfold classify_attachment_error.
  cbn [err_class err_str].
  destruct cls; cbn [error_isinstance error_class_eqb orb].
  1-7: left; split; [discriminate|].
  - split; [reflexivity|]. simpl. auto.
  - split; [reflexivity|]. simpl. auto.
  - split; [reflexivity|]. destruct (has_word _ _); simpl; auto.
  - split; [reflexivity|]. destruct (has_word _ _); simpl; auto.
  - split; [reflexivity|].
    destruct (has_word _ "password" || has_word _ "encrypted");
      [simpl; auto|].
    destruct (has_word _ "empty" || has_word _ "no data"); [simpl; auto 6|].
    destruct (has_word _ "not supported" || has_word _ "unsupported");
      simpl; auto 7.
  - split; [reflexivity|].
    destruct (has_word _ "password" || has_word _ "encrypted");
      [simpl; auto|].
    destruct (has_word _ "empty" || has_word _ "no data"); [simpl; auto 6|].
    destruct (has_word _ "not supported" || has_word _ "unsupported");
      simpl; auto 7.
  - split; [reflexivity|]. simpl. auto 8.
  - right. split; [reflexivity|].
    destruct (has_word _ "password" || has_word _ "encrypted").
    { left. split; [now left | reflexivity]. }
    destruct (has_word _ "corrupt" || has_word _ "invalid").
    { left. split; [right; now left | reflexivity]. }
    destruct (has_word _ "not supported" || has_word _ "unsupported").
    { left. split; [right; right; now left | reflexivity]. }
    destruct (is_unsupported_file_type mime_type attachment_filename).
    + right. left. now split.
    + right. right. now split.
Qed.

(** X20. Every category the classifier returns has its message in
    [ERROR_MESSAGES]: an [AttachmentError] built with the category of a
    classified exception never falls back on a default text, in its own
    message as in the record it converts to. *)
Theorem classified_errors_have_messages (e : error_value) (email : Email)
  (attachment_filename mime_type : str) (file_size_bytes : Z) :
  let c := classify_attachment_error e attachment_filename mime_type in
  let err :=
    new_AttachmentError email attachment_filename mime_type file_size_bytes
      c in
  exists m,
    dict_get c ERROR_MESSAGES = Some m
    /\ ae_message err
       = lit "Failed to process attachment '" ++ attachment_filename
         ++ lit "': " ++ m
    /\ error_type (to_error_info err) = c
    /\ error_message (to_error_info err) = m.
Proof.
  intros c err.
  assert (Hm : exists m, dict_get c ERROR_MESSAGES = Some m).
  { destruct (classify_attachment_error_cases e attachment_filename
                mime_type) as [(_ & _ & Hin) | (_ & [(Hin & _) | [(Hc & _) | (Hc & _)]])];
      fold c in Hin || fold c in Hc.
    - simpl in Hin.
      repeat (destruct Hin as [<- | Hin]; [eexists; reflexivity|]).
      destruct Hin.
    - simpl in Hin.
      repeat (destruct Hin as [<- | Hin]; [eexists; reflexivity|]).
      destruct Hin.
    - rewrite Hc. eexists. reflexivity.
    - rewrite Hc. eexists. reflexivity. }
  destruct Hm as [m Hm]. exists m. split; [exact Hm|].
  unfold err, new_AttachmentError, to_error_info, error_message_for.
  cbn [ae_message ae_error_type error_type error_message].
  rewrite Hm. repeat split.
Qed.

(** X21. The file type is the classifier's last resort.  For an exception
    of one of the classes it knows, the category does not depend on the
    file name or the MIME type, and is neither "unsupported" nor "unknown";
    "unsupported" and "unknown" are only given to exceptions of other
    classes, and then by [is_unsupported_file_type] alone. *)
Theorem classifier_file_type_last (e : error_value)
  (attachment_filename mime_type : str) :
  let c := classify_attachment_error e attachment_filename mime_type in
  (err_class e <> ErrOther ->
   c <> lit "unsupported" /\ c <> lit "unknown"
   /\ forall f' mt', classify_attachment_error e f' mt' = c)
  /\ (c = lit "unsupported" ->
      err_class e = ErrOther
      /\ is_unsupported_file_type mime_type attachment_filename = true)
  /\ (c = lit "unknown" ->
      err_class e = ErrOther
      /\ is_unsupported_file_type mime_type attachment_filename = false).
Proof.
  intros c.
  assert (Hknown : forall x,
            In x [lit "encoding_error"; lit "missing_library";
                  lit "corrupted"; lit "password_protected";
                  lit "empty_file"; lit "unsupported_variant";
                  lit "too_large"] ->
            x <> lit "unsupported" /\ x <> lit "unknown").
  { intros x Hin. simpl in Hin.
    repeat (destruct Hin as [<- | Hin]; [split; discriminate|]).
    destruct Hin. }
  assert (Hother : forall x,
            In x [lit "password_protected"; lit "corrupted";
                  lit "unsupported_variant"] ->
            x <> lit "unsupported" /\ x <> lit "unknown").
  { intros x Hin. apply Hknown. simpl in *.
    destruct Hin as [<- | [<- | [<- | []]]]; auto 7. }
  destruct (classify_attachment_error_cases e attachment_filename mime_type)
    as [(Hcls & Hind & Hin)
       | (Hcls & [(Hin & Hind) | [(Hc & Hu) | (Hc & Hu)]])];
    fold c in Hin || fold c in Hc; try fold c in Hind.
  - destruct (Hknown _ Hin) as [H1 H2]. split; [|split].
    + intros _. repeat split; assumption.
    + intros H. now elim H1.
    + intros H. now elim H2.
  - destruct (Hother _ Hin) as [H1 H2]. split; [|split].
    + intros H. now elim H.
    + intros H. now elim H1.
    + intros H. now elim H2.
  - split; [|split].
    + intros H. now elim H.
    + intros _. now split.
    + rewrite Hc. discriminate.
  - split; [|split].
    + intros H. now elim H.
    + rewrite Hc. discriminate.
    + intros _. now split.
Qed.

End Pipeline.

(** * Sample inputs

    A small mailbox world on which the theorems above are instantiated:
    two mailbox files, a date parser that knows the dates of their
    messages, and stand-ins for the libraries. *)

Definition sample_parsedate (s : str) : result datetime :=
  if str_eqb s (lit "Fri, 04 Jan 2008 16:02:11 -0800")
  then Return (mkDate 2008 1 4 16 2 11 (-28800))
  else if str_eqb s (lit "Sat, 05 Jan 2008 09:30:00 -0800")
  then Return (mkDate 2008 1 5 9 30 0 (-28800))
  else Raise (mkExn ValueError (lit "Invalid date value or format")).

Definition sample_lower (s : str) : str :=
  map (fun c => if in_range 65 90 c then (c + 32)%N else c) s.

Definition sample_decode_charset (charset : str) (payload : list byte)
  : result str :=
  if str_eqb (sample_lower charset) (lit "utf-8")
  then decode_utf8 Strict payload
  else if str_eqb (sample_lower charset) (lit "latin-1")
  then decode_latin1 Strict payload
  else Raise (mkExn LookupError (lit "unknown encoding: " ++ charset)).

Definition sample_split (s : str) : list str := [s].








(** A toy page format: one byte of the file is one page. *)
Definition sample_pdf_pages (f : pdf_file) : result (list page) :=
  Return (map (fun b => Original [b]) f).

Definition sample_pdf_write (pages : list page) : result pdf_file :=
  Return (repeat x00 (length pages)).




Definition plain_part (text : string) : part :=
  mkPart (lit "text/plain") (lit "text") None None
    (Some (map (fun a => byte_of_ascii a) (list_ascii_of_string text)))
    (Some (lit "utf-8")).

Definition message_jan4 : message :=
  mkMessage
    [(lit "Message-ID", lit "<simple001@example.com>");
     (lit "From", lit "alice@example.com");
     (lit "To", lit "bob@example.com");
     (lit "Subject", lit "Hello");
     (lit "Date", lit "Fri, 04 Jan 2008 16:02:11 -0800")]
    false (plain_part "Hello") [].

Definition message_jan5 : message :=
  mkMessage
    [(lit "Message-ID", lit "<simple002@example.com>");
     (lit "From", lit "bob@example.com");
     (lit "To", lit "alice@example.com");
     (lit "Subject", lit "Re: Hello");
     (lit "In-Reply-To", lit "<simple001@example.com>");
     (lit "Date", lit "Sat, 05 Jan 2008 09:30:00 -0800")]
    false (plain_part "Hello") [].

(** Two messages without Message-ID header, the later one first. *)
Definition message_noid_first : message :=
  mkMessage
    [(lit "Subject", lit "first in the file");
     (lit "Date", lit "Sat, 05 Jan 2008 09:30:00 -0800")]
    false (plain_part "Hello") [].

Definition message_noid_second : message :=
  mkMessage
    [(lit "Subject", lit "second in the file");
     (lit "Date", lit "Fri, 04 Jan 2008 16:02:11 -0800")]
    false (plain_part "Hello") [].

Definition sample_files (path : str) : option (list message) :=
  if str_eqb path (lit "simple.mbox")
  then Some [message_jan4; message_jan5]
  else if str_eqb path (lit "noid.mbox")
  then Some [message_noid_first; message_noid_second]
  else None.





Definition email_of (m : message) (d : datetime) : Email :=
  mkEmail (msg_get_default sample_lower m "Message-ID" [])
    (msg_get_default sample_lower m "From" [])
    (msg_get_default sample_lower m "To" []) d
    (msg_get_default sample_lower m "Subject" [])
    (lit "Hello") None None None
    (msg_get sample_lower m "In-Reply-To")
    None [] (msg_headers m) None.

Definition email_jan4 : Email :=
  email_of message_jan4 (mkDate 2008 1 4 16 2 11 (-28800)).
Definition email_jan5 : Email :=
  email_of message_jan5 (mkDate 2008 1 5 9 30 0 (-28800)).

(** ** Further sample inputs

    A multipart message with an empty and a non-empty text part, an HTML
    part and an audio attachment, in a third mailbox file; a CSV reader
    that finds no row in an empty text; a PDF backend that always fails. *)

Definition empty_text_part : part :=
  mkPart (lit "text/plain") (lit "text") None None (Some [])
    (Some (lit "utf-8")).

Definition html_part : part :=
  mkPart (lit "text/html") (lit "text") None None
    (Some (map (fun a => byte_of_ascii a)
             (list_ascii_of_string "<b>Hi</b>")))
    (Some (lit "utf-8")).

Definition audio_part : part :=
  mkPart (lit "audio/mpeg") (lit "audio")
    (Some (lit "attachment; filename=song.mp3")) (Some (lit "song.mp3"))
    (Some [x49; x44; x33]) None.

Definition message_multipart : message :=
  mkMessage
    [(lit "Message-ID", lit "<multi001@example.com>");
     (lit "From", lit "carol@example.com");
     (lit "To", lit "bob@example.com");
     (lit "Subject", lit "A song");
     (lit "Date", lit "Sat, 05 Jan 2008 09:30:00 -0800")]
    true
    (mkPart (lit "multipart/mixed") (lit "multipart") None None None None)
    [empty_text_part; plain_part "Hello"; html_part; audio_part].

(** A message whose date the date parser refuses. *)
Definition message_undated : message :=
  mkMessage
    [(lit "Message-ID", lit "<undated@example.com>");
     (lit "Date", lit "yesterday")]
    false (plain_part "Hello") [].

Definition sample_files_multi (path : str) : option (list message) :=
  if str_eqb path (lit "multi.mbox")
  then Some [message_multipart; message_undated; message_jan4]
  else sample_files path.

Definition audio_attachment : Attachment :=
  mkAttachment (lit "song.mp3") (lit "audio/mpeg") 3 [x49; x44; x33]
    None None None.

Definition email_multipart : Email :=
  mkEmail (lit "<multi001@example.com>") (lit "carol@example.com")
    (lit "bob@example.com") (mkDate 2008 1 5 9 30 0 (-28800))
    (lit "A song") (lit "Hello") (Some (lit "<b>Hi</b>")) None None None
    None [audio_attachment] (msg_headers message_multipart) None.




Definition sample_parse_multi : str -> result (list Email) :=
  parse_mbox sample_files_multi sample_parsedate sample_decode_charset
    sample_lower sample_split.



(** * The theorems at the sample inputs *)










(** C7 on a file of three pages. *)
Lemma add_continuation_headers_spec_witness :
  sample_pdf_pages [x01; x02; x03]
  = Return [Original [x01]; Original [x02]; Original [x03]]
  /\ exists out,
       add_continuation_headers sample_pdf_pages sample_pdf_write
         [x01; x02; x03] (lit "Hello")
       = sample_pdf_write out
       /\ length out = 3%nat
       /\ nth_error out 0 = Some (Original [x01])
       /\ nth_error out 2
          = Some (Merged (Original [x03])
                    (Drawn "Helvetica" 8 (4 # 10) 54 756
                       (lit "Subject: Hello (continued - page 3 of 3)"))).
Proof.
  assert (H : sample_pdf_pages [x01; x02; x03]
              = Return [Original [x01]; Original [x02]; Original [x03]])
    by reflexivity.
  split; [exact H|].
  destruct (add_continuation_headers_spec sample_pdf_pages sample_pdf_write
              _ _ (lit "Hello") H)
    as (out & Hout & Hlen & _ & Hmulti).
  destruct (Hmulti ltac:(simpl; lia)) as (Hfirst & Hrest).
  exists out. split; [exact Hout|]. split; [exact Hlen|].
  split; [exact Hfirst|].
  exact (proj1 (Hrest 2%nat (Original [x03]) ltac:(lia) eq_refl)).
Defined.






(** C8 on a byte that is no UTF-8 and on the UTF-8 bytes of the same
    character. *)
Lemma text_decoding_never_raises_witness :
  raises (decode_utf8 Strict [xe9])
  /\ decode_csv [xe9] = Return [233%N]
  /\ decode_html [xe9] = Return [233%N]
  /\ decode_text [xe9] = Return [233%N]
  /\ decode_text [xc3; xa9] = Return [233%N].
Proof.
  destruct (text_decoding_never_raises [xe9]) as (Hc & Hh & Ht & _).
  split; [eexists; vm_compute; reflexivity|].
  split; [rewrite Hc; reflexivity|].
  split; [rewrite Hh; reflexivity|].
  split; [rewrite Ht; reflexivity|].
  rewrite (proj1 (proj2 (proj2 (text_decoding_never_raises [xc3; xa9])))).
  reflexivity.
Defined.

(** ** The further properties at the sample inputs *)

Lemma sample_decode_charset_errors (charset : str) (payload : list byte)
  (e : exn) :
  sample_decode_charset charset payload = Raise e ->
  exn_kind e = UnicodeDecodeError \/ exn_kind e = LookupError.
Proof.
  unfold sample_decode_charset.
  destruct (str_eqb (sample_lower charset) (lit "utf-8")).
  { intros H. left. exact (utf8_go_strict_error _ _ _ H). }
  destruct (str_eqb (sample_lower charset) (lit "latin-1")).
  { rewrite decode_latin1_total. discriminate. }
  intros [= <-]. now right.
Defined.

Lemma sample_parse_multi_file :
  sample_parse_multi (lit "multi.mbox")
  = Return [email_jan4; email_multipart].
Proof. vm_compute. reflexivity. Defined.

(** X1 on a part declared as UTF-8 whose single byte is no UTF-8: the
    text is the Latin-1 reading of the byte. *)
Lemma decode_payload_never_raises_witness :
  (forall charset payload e,
     sample_decode_charset charset payload = Raise e ->
     exn_kind e = UnicodeDecodeError \/ exn_kind e = LookupError)
  /\ _decode_payload sample_decode_charset
       (mkPart (lit "text/plain") (lit "text") None None (Some [xe9])
          (Some (lit "utf-8")))
     = Return [233%N].
Proof.
  split; [exact sample_decode_charset_errors|].
  destruct (decode_payload_never_raises sample_decode_charset
              (mkPart (lit "text/plain") (lit "text") None None (Some [xe9])
                 (Some (lit "utf-8")))
              sample_decode_charset_errors)
    as (text & Ht & _ & Hcases).
  destruct (Hcases _ eq_refl) as [H | [[_ H] | (_ & _ & H)]].
  - vm_compute in H. discriminate H.
  - vm_compute in H. discriminate H.
  - rewrite Ht, H. reflexivity.
Defined.

(** X2 on the audio attachment of the multipart message. *)
Lemma parsed_attachments_fresh_witness :
  sample_parse_multi (lit "multi.mbox")
  = Return [email_jan4; email_multipart]
  /\ size_bytes audio_attachment
     = Z.of_nat (length (raw_content audio_attachment))
  /\ filename audio_attachment <> []
  /\ content_type audio_attachment = None
  /\ error audio_attachment = None.
Proof.
  split; [exact sample_parse_multi_file|].
  destruct (parsed_attachments_fresh sample_files_multi sample_parsedate
              sample_decode_charset sample_lower sample_split _ _
              sample_parse_multi_file email_multipart audio_attachment
              (or_intror (or_introl eq_refl)) (or_introl eq_refl))
    as (H1 & _ & H2 & _ & H3 & H4).
  split; [exact H1|]. split; [exact H2|]. split; [exact H3 | exact H4].
Defined.

(** X3 on the multipart message: the empty text part is passed over, the
    second one gives the text body. *)
Lemma extract_body_first_wins_witness :
  _extract_body_and_attachments sample_decode_charset message_multipart
  = Return (lit "Hello", Some (lit "<b>Hi</b>"), [audio_attachment])
  /\ (forall text,
        body_candidate "text/plain" (plain_part "Hello") = true ->
        _decode_payload sample_decode_charset (plain_part "Hello")
        = Return text ->
        text <> [] -> lit "Hello" = text)
  /\ (length [audio_attachment] <= length (msg_walk message_multipart))%nat.
Proof.
  assert (H : _extract_body_and_attachments sample_decode_charset
                message_multipart
              = Return (lit "Hello", Some (lit "<b>Hi</b>"),
                        [audio_attachment]))
    by (vm_compute; reflexivity).
  split; [exact H|].
  destruct (proj2 (extract_body_first_wins sample_decode_charset _ _ _ _ H)
              eq_refl) as (Hlen & Htext & _).
  split; [|exact Hlen].
  intros text Hc Hd Hne.
  apply (Htext [msg_root message_multipart; empty_text_part]
           (plain_part "Hello") [html_part; audio_part] text eq_refl Hc Hd
           Hne).
  intros q [<- | [<- | []]] Hq.
  - discriminate Hq.
  - reflexivity.
Defined.

(** X4 on the third mailbox file: the undated message gives no email, the
    two others come out by date. *)
Lemma parse_mbox_sorted_complete_witness :
  sample_files_multi (lit "multi.mbox")
  = Some [message_multipart; message_undated; message_jan4]
  /\ sample_parse_multi (lit "multi.mbox")
     = Return [email_jan4; email_multipart]
  /\ date_sorted [email_jan4; email_multipart]
  /\ (length [email_jan4; email_multipart]
      <= length [message_multipart; message_undated; message_jan4])%nat
  /\ _parse_message sample_parsedate sample_decode_charset sample_lower
       sample_split message_undated = Return None.
Proof.
  assert (Hf : sample_files_multi (lit "multi.mbox")
               = Some [message_multipart; message_undated; message_jan4])
    by reflexivity.
  split; [exact Hf|]. split; [exact sample_parse_multi_file|].
  destruct (parse_mbox_sorted_complete sample_files_multi sample_parsedate
              sample_decode_charset sample_lower sample_split _ _ _ Hf
              sample_parse_multi_file)
    as (Hsorted & Hlen & _ & _ & Hundated).
  split; [exact Hsorted|]. split; [exact Hlen|].
  apply (Hundated message_undated
           (mkExn ValueError (lit "Invalid date value or format"))
           (or_intror (or_introl eq_refl)) eq_refl (or_introl eq_refl)).
Defined.



(** X7 on the two sample emails, given latest first. *)
Lemma group_buckets_exact_witness :
  group_emails_by_date [email_jan5; email_jan4] (lit "month")
  = Return [(lit "2008-01-January", [email_jan4; email_jan5])]
  /\ [email_jan4; email_jan5]
     = sort_by_date
         (filter (fun e => str_eqb (_get_group_key (date e) (lit "month"))
                             (lit "2008-01-January"))
            [email_jan5; email_jan4])
  /\ NoDup (map fst [(lit "2008-01-January", [email_jan4; email_jan5])]).
Proof.
  assert (H : group_emails_by_date [email_jan5; email_jan4] (lit "month")
              = Return [(lit "2008-01-January", [email_jan4; email_jan5])])
    by (vm_compute; reflexivity).
  split; [exact H|].
  destruct (group_buckets_exact _ _ _ H) as (Hb & _ & Hnd & _).
  split; [|exact Hnd].
  exact (proj1 (Hb _ _ (or_introl eq_refl))).
Defined.

(** X8 on the last day of 2008 and the first of 2009. *)
Lemma group_keys_chronological_witness :
  1000 <= year (mkDate 2008 12 31 23 59 59 0) <= 9999
  /\ 1000 <= year (mkDate 2009 1 1 0 0 0 0) <= 9999
  /\ 1 <= month (mkDate 2008 12 31 23 59 59 0) <= 12
  /\ 1 <= month (mkDate 2009 1 1 0 0 0 0) <= 12
  /\ str_lt (_get_group_key (mkDate 2008 12 31 23 59 59 0) (lit "month"))
       (_get_group_key (mkDate 2009 1 1 0 0 0 0) (lit "month"))
  /\ str_lt (_get_group_key (mkDate 2008 12 31 23 59 59 0) (lit "quarter"))
       (_get_group_key (mkDate 2009 1 1 0 0 0 0) (lit "quarter"))
  /\ str_lt (_get_group_key (mkDate 2008 12 31 23 59 59 0) (lit "year"))
       (_get_group_key (mkDate 2009 1 1 0 0 0 0) (lit "year")).
Proof.
  assert (H1 : 1000 <= year (mkDate 2008 12 31 23 59 59 0) <= 9999)
    by (simpl; lia).
  assert (H2 : 1000 <= year (mkDate 2009 1 1 0 0 0 0) <= 9999)
    by (simpl; lia).
  assert (H3 : 1 <= month (mkDate 2008 12 31 23 59 59 0) <= 12)
    by (simpl; lia).
  assert (H4 : 1 <= month (mkDate 2009 1 1 0 0 0 0) <= 12) by (simpl; lia).
  assert (Hy : year (mkDate 2008 12 31 23 59 59 0)
               < year (mkDate 2009 1 1 0 0 0 0)) by (simpl; lia).
  destruct (group_keys_chronological _ _ H1 H2 H3 H4) as (Hm & Hq & Hyr & _).
  exact (conj H1 (conj H2 (conj H3 (conj H4
           (conj (Hm (or_introl Hy))
              (conj (Hq (or_introl Hy)) (Hyr Hy))))))).
Defined.







(** X17 on a file of two pages and a file of one page. *)
Lemma merge_pdfs_concatenates_witness :
  Forall2 (fun pdf pages => sample_pdf_pages pdf = Return pages)
    [[x01; x02]; [x03]]
    [[Original [x01]; Original [x02]]; [Original [x03]]]
  /\ merge_pdfs sample_pdf_pages sample_pdf_write [[x01; x02]; [x03]]
     = sample_pdf_write [Original [x01]; Original [x02]; Original [x03]]
  /\ length (concat [[Original [x01]; Original [x02]]; [Original [x03]]])
     = 3%nat.
Proof.
  assert (H : Forall2 (fun pdf pages => sample_pdf_pages pdf = Return pages)
                [[x01; x02]; [x03]]
                [[Original [x01]; Original [x02]]; [Original [x03]]])
    by (repeat constructor).
  split; [exact H|].
  destruct (merge_pdfs_concatenates sample_pdf_pages sample_pdf_write _ _ H)
    as (H1 & H2 & _).
  split; [exact H1 | exact H2].
Defined.
